(** * Messaging-System: the lock-free ring buffer and the message bus

    A shallow embedding of [backend/src/ring_buffer.hpp],
    [backend/src/message_bus.hpp] and [backend/src/message_bus.cpp],
    followed by the properties of the bus established over it.

    Conventions.
    - [std::size_t] and [uint64_t] are 64-bit unsigned integers: values of
      [Z] whose arithmetic is wrapped modulo [2^64] where the source adds
      or subtracts.
    - A [double] is carried as its 64-bit IEEE-754 pattern: the bus only
      copies prices and volumes.
    - A [char] array is a [list byte]; [x00] is the terminating NUL.
    - A subscriber callback is a function on a client-side state [World];
      it returns normally, throws an exception derived from
      [std::exception], or throws something else.
    - One producer and one consumer run side by side: a run is a list of
      calls, each taking effect as a whole.  [process_messages] is the body
      of the consumer thread, so a thrown object that leaves it terminates
      the process. *)

From Stdlib Require Import ZArith Lia List.
From Stdlib Require Import Strings.Byte.
From stdpp Require Import base gmap strings list sorting.

Local Open Scope Z_scope.

(** ** Machine integers *)

Definition wrap_size_t (x : Z) : Z := x mod 2 ^ 64.
Definition wrap_u64 (x : Z) : Z := x mod 2 ^ 64.

(** [double], as a bit pattern. *)
Definition double : Type := Z.

(** ** ring_buffer.hpp *)

Module RingBuffer.

(** The data members of [RingBuffer<T, Size>].  [buffer_] is raw storage:
    a slot holds an object only between the placement-new of [write] and
    the destructor call of [read]; a slot without an object is absent
    from the map. *)
Record t (T : Type) : Type := mk {
  buffer_ : gmap Z T;
  read_index_ : Z;
  write_index_ : Z
}.
Arguments mk {T} _ _ _.
Arguments buffer_ {T} _.
Arguments read_index_ {T} _.
Arguments write_index_ {T} _.

Section Operations.
Context {T : Type}.
(** The template parameter [Size]. *)
Variable Size : Z.

(** [RingBuffer() : read_index_(0), write_index_(0)] *)
Definition init : t T :=
  {| buffer_ := ∅; read_index_ := 0; write_index_ := 0 |}.

(** [(index + 1) & (Size - 1)] *)
Definition next_index (index : Z) : Z :=
  Z.land (wrap_size_t (index + 1)) (Size - 1).

(** [bool write(const T& item)] *)
Definition write (item : T) (rb : t T) : t T * bool :=
  let next_write := next_index (write_index_ rb) in
  if next_write =? read_index_ rb then (rb, false)
  else ({| buffer_ := <[write_index_ rb := item]> (buffer_ rb);
           read_index_ := read_index_ rb;
           write_index_ := next_write |}, true).

(** [bool read(T& item)]: the new value of [item] is returned next to
    the flag.  The slot is moved from and destroyed.  (A slot between
    the two indices always holds an object, see [repr]; the [default]
    only makes the function total.) *)
Definition read (item : T) (rb : t T) : t T * T * bool :=
  if read_index_ rb =? write_index_ rb then (rb, item, false)
  else ({| buffer_ := delete (read_index_ rb) (buffer_ rb);
           read_index_ := next_index (read_index_ rb);
           write_index_ := write_index_ rb |},
        default item (buffer_ rb !! read_index_ rb),
        true).

(** [std::size_t size() const] *)
Definition size (rb : t T) : Z :=
  Z.land (wrap_size_t (write_index_ rb - read_index_ rb)) (Size - 1).

(** [std::size_t capacity() const] *)
Definition capacity : Z := Size - 1.

(** [bool is_full() const] *)
Definition is_full (rb : t T) : bool := size rb =? capacity.

(** [bool is_empty() const] *)
Definition is_empty (rb : t T) : bool :=
  read_index_ rb =? write_index_ rb.

Definition get_read_index (rb : t T) : Z := read_index_ rb.
Definition get_write_index (rb : t T) : Z := write_index_ rb.

(** The states a buffer goes through: construction, then writes and
    reads. *)
Inductive reachable : t T -> Prop :=
| reach_init : reachable init
| reach_write item rb : reachable rb -> reachable (fst (write item rb))
| reach_read item rb : reachable rb -> reachable (fst (fst (read item rb))).

(** The queue a buffer state stands for: [l] lists the objects in the
    slots from the read position up to the write position. *)
Definition repr (rb : t T) (l : list T) : Prop :=
  0 <= read_index_ rb < Size /\
  0 <= write_index_ rb < Size /\
  Z.of_nat (length l) < Size /\
  write_index_ rb = (read_index_ rb + Z.of_nat (length l)) mod Size /\
  forall (i : nat) (x : T),
    l !! i = Some x ->
    buffer_ rb !! ((read_index_ rb + Z.of_nat i) mod Size) = Some x.
End Operations.

End RingBuffer.

(** ** message_bus.hpp: the records *)

Record MarketData : Type := {
  symbol : list byte;      (* char symbol[16] *)
  price : double;
  volume : double;
  seq : Z;                 (* uint64_t *)
  timestamp : Z;           (* int64_t *)
  source : list byte       (* char source[32] *)
}.

Inductive MessageType : Type := MARKET_DATA.

(** [MessageWrapper]: the tag and the union, whose only member is
    [market_data]. *)
Record MessageWrapper : Type := {
  type : MessageType;
  data : MarketData
}.

(** ** <cstring> *)

(** [strncpy(dst, src, n)]: the [n] bytes written to [dst].  Bytes of [src]
    are copied up to its first NUL; the rest of the [n] bytes is filled with
    NUL.  The end of the list stands for the end of the source array, which
    a call with [n] below the array size never reaches. *)
Fixpoint strncpy (src : list byte) (n : nat) {struct n} : list byte :=
  match n with
  | O => []
  | S n' =>
      match src with
      | [] => repeat x00 n
      | c :: rest =>
          if Byte.eqb c x00 then repeat x00 n else c :: strncpy rest n'
      end
  end.

(** [strncpy(dst, src, sizeof(dst) - 1); dst[sizeof(dst) - 1] = '\0';]
    The whole of [dst] is overwritten. *)
Definition copy_field (sizeof_dst : nat) (src : list byte) : list byte :=
  strncpy src (sizeof_dst - 1) ++ [x00].

(** The string a char array holds: the bytes before the first NUL. *)
Fixpoint c_str (a : list byte) : list byte :=
  match a with
  | [] => []
  | c :: rest => if Byte.eqb c x00 then [] else c :: c_str rest
  end.

Definition sizeof_symbol : nat := 16.
Definition sizeof_source : nat := 32.

(** ** message_bus.hpp / message_bus.cpp: the bus *)

(** What a call of a subscriber callback ends in. *)
Inductive outcome : Type :=
| Returned
| ThrewStd (what : string)   (* an exception derived from std::exception *)
| ThrewOther.                (* any other thrown object *)

(** What the bus does that can be seen from outside. *)
Inductive event : Type :=
| EvInvoke (i : nat) (d : MarketData)  (* the i-th "market_data" callback is called *)
| EvCerr (msg : string)                (* a line on std::cerr *)
| EvSleep (ms : Z).                    (* std::this_thread::sleep_for *)

(** The callbacks called, in order, with the tick each was given. *)
Definition invoked (evs : list event) : list (nat * MarketData) :=
  flat_map (fun e => match e with EvInvoke i d => [(i, d)] | _ => [] end) evs.

(** The sleeps made, in order. *)
Definition sleeps (evs : list event) : list Z :=
  flat_map (fun e => match e with EvSleep ms => [ms] | _ => [] end) evs.

(** The sequence number an envelope carries. *)
Definition wseq (m : MessageWrapper) : Z := seq (data m).

Module MessageBus.

Definition DEFAULT_RING_BUFFER_SIZE : Z := 1024.

Section Bus.
(** The state the subscribers' closures capture. *)
Context {World : Type}.

(** [std::function<void(const MarketData&)>] *)
Definition callback : Type := MarketData -> World -> World * outcome.

(** The data members (the shared-memory mapping, which only backs the
    ring buffer, is left out). *)
Record t : Type := mk {
  ring_buffer_ : RingBuffer.t MessageWrapper;
  subscribers_ : gmap string (list callback);
  published_count_ : Z;       (* std::atomic<uint64_t> *)
  processed_count_ : Z;       (* std::atomic<uint64_t> *)
  dropped_count_ : Z;         (* std::atomic<uint64_t> *)
  processing_delay_ms_ : Z;   (* std::atomic<int> *)
  sequence_ : Z               (* std::atomic<uint64_t> *)
}.

(** The constructor, when the shared memory could be mapped. *)
Definition create : t :=
  {| ring_buffer_ := RingBuffer.init;
     subscribers_ := ∅;
     published_count_ := 0;
     processed_count_ := 0;
     dropped_count_ := 0;
     processing_delay_ms_ := 0;
     sequence_ := 0 |}.

(** The envelope [publish] builds for [d] under sequence number [s]. *)
Definition make_wrapper (d : MarketData) (s : Z) : MessageWrapper :=
  {| type := MARKET_DATA;
     data := {| symbol := copy_field sizeof_symbol (symbol d);
                price := price d;
                volume := volume d;
                seq := s;
                timestamp := timestamp d;
                source := copy_field sizeof_source (source d) |} |}.

(** [bool publish(const std::string& topic, const MarketData& data)].
    Nothing in the body throws, so the handler of the enclosing [try]
    is never entered. *)
Definition publish (topic : string) (d : MarketData) (b : t)
  : t * bool * list event :=
  let s := wrap_u64 (sequence_ b + 1) in
  let wrapper := make_wrapper d s in
  match RingBuffer.write DEFAULT_RING_BUFFER_SIZE wrapper (ring_buffer_ b) with
  | (_, false) =>
      ({| ring_buffer_ := ring_buffer_ b;
          subscribers_ := subscribers_ b;
          published_count_ := published_count_ b;
          processed_count_ := processed_count_ b;
          dropped_count_ := wrap_u64 (dropped_count_ b + 1);
          processing_delay_ms_ := processing_delay_ms_ b;
          sequence_ := s |},
       false,
       [EvCerr "Failed to write to ring buffer - buffer full"])
  | (rb, true) =>
      ({| ring_buffer_ := rb;
          subscribers_ := subscribers_ b;
          published_count_ := wrap_u64 (published_count_ b + 1);
          processed_count_ := processed_count_ b;
          dropped_count_ := dropped_count_ b;
          processing_delay_ms_ := processing_delay_ms_ b;
          sequence_ := s |},
       true,
       [])
  end.

(** [bool publish(const MarketData& data)] *)
Definition publish_default (d : MarketData) (b : t) : t * bool * list event :=
  publish "market_data" d b.

(** [subscribe<MarketData>(topic, callback)]:
    [subscribers_[topic].push_back(callback)] *)
Definition subscribe (topic : string) (cb : callback) (b : t) : t :=
  {| ring_buffer_ := ring_buffer_ b;
     subscribers_ :=
       <[topic := default [] (subscribers_ b !! topic) ++ [cb]]> (subscribers_ b);
     published_count_ := published_count_ b;
     processed_count_ := processed_count_ b;
     dropped_count_ := dropped_count_ b;
     processing_delay_ms_ := processing_delay_ms_ b;
     sequence_ := sequence_ b |}.

(** [subscribe<MarketData>(callback)], the pointer-based overload. *)
Definition subscribe_default (cb : callback) (b : t) : t :=
  subscribe "market_data" cb b.

Definition get_read_index (b : t) : Z := RingBuffer.get_read_index (ring_buffer_ b).
Definition get_write_index (b : t) : Z := RingBuffer.get_write_index (ring_buffer_ b).
Definition get_size (b : t) : Z :=
  RingBuffer.size DEFAULT_RING_BUFFER_SIZE (ring_buffer_ b).
Definition get_capacity : Z := RingBuffer.capacity DEFAULT_RING_BUFFER_SIZE.
Definition is_full (b : t) : bool :=
  RingBuffer.is_full DEFAULT_RING_BUFFER_SIZE (ring_buffer_ b).
Definition is_empty (b : t) : bool := RingBuffer.is_empty (ring_buffer_ b).

Definition get_published_count (b : t) : Z := published_count_ b.
Definition get_processed_count (b : t) : Z := processed_count_ b.
Definition get_dropped_count (b : t) : Z := dropped_count_ b.
Definition get_processing_delay_ms (b : t) : Z := processing_delay_ms_ b.

(** [processing_delay_ms_.store(std::max(0, ms))] *)
Definition set_processing_delay_ms (ms : Z) (b : t) : t :=
  {| ring_buffer_ := ring_buffer_ b;
     subscribers_ := subscribers_ b;
     published_count_ := published_count_ b;
     processed_count_ := processed_count_ b;
     dropped_count_ := dropped_count_ b;
     processing_delay_ms_ := Z.max 0 ms;
     sequence_ := sequence_ b |}.

Definition reset_counters (b : t) : t :=
  {| ring_buffer_ := ring_buffer_ b;
     subscribers_ := subscribers_ b;
     published_count_ := 0;
     processed_count_ := 0;
     dropped_count_ := 0;
     processing_delay_ms_ := processing_delay_ms_ b;
     sequence_ := sequence_ b |}.

(** The [MarketData] that [process_messages] rebuilds from an envelope. *)
Definition unwrap (wrapper : MessageWrapper) : MarketData :=
  {| symbol := copy_field sizeof_symbol (symbol (data wrapper));
     price := price (data wrapper);
     volume := volume (data wrapper);
     seq := seq (data wrapper);
     timestamp := timestamp (data wrapper);
     source := copy_field sizeof_source (source (data wrapper)) |}.

(** [for (const auto& callback : it->second) try { callback(data); }
    catch (const std::exception& e) { std::cerr << ... }].
    [i] is the position of the first callback of [cbs] in the topic's
    vector.  The flag is [false] when a thrown object got past the
    handler; the loop is then left at once. *)
Fixpoint notify (cbs : list callback) (i : nat) (d : MarketData) (w : World)
  : World * list event * bool :=
  match cbs with
  | [] => (w, [], true)
  | cb :: rest =>
      match cb d w with
      | (w', Returned) =>
          let '(w'', evs, ok) := notify rest (S i) d w' in
          (w'', EvInvoke i d :: evs, ok)
      | (w', ThrewStd what) =>
          let '(w'', evs, ok) := notify rest (S i) d w' in
          (w'', EvInvoke i d
                  :: EvCerr ("Error in subscriber callback: " +:+ what)
                  :: evs, ok)
      | (w', ThrewOther) => (w', [EvInvoke i d], false)
      end
  end.

(** [int delay = processing_delay_ms_.load(); if (delay > 0) sleep_for(delay)] *)
Definition delay_sleep (b : t) : list event :=
  if 0 <? processing_delay_ms_ b then [EvSleep (processing_delay_ms_ b)] else [].

(** The local [MessageWrapper wrapper;] of the loop body. *)
Definition empty_wrapper : MessageWrapper :=
  {| type := MARKET_DATA;
     data := {| symbol := repeat x00 sizeof_symbol; price := 0; volume := 0;
                seq := 0; timestamp := 0;
                source := repeat x00 sizeof_source |} |}.

(** How one pass through the body of the [while] loop ends. *)
Inductive iteration : Type :=
| Completed (b : t) (w : World) (evs : list event)
    (* the end of the body is reached; the run flag is tested next *)
| Escaped (b : t) (w : World) (evs : list event).
    (* a thrown object that neither handler catches leaves
       process_messages *)

Definition with_ring (rb : RingBuffer.t MessageWrapper) (b : t) : t :=
  {| ring_buffer_ := rb;
     subscribers_ := subscribers_ b;
     published_count_ := published_count_ b;
     processed_count_ := processed_count_ b;
     dropped_count_ := dropped_count_ b;
     processing_delay_ms_ := processing_delay_ms_ b;
     sequence_ := sequence_ b |}.

Definition count_processed (b : t) : t :=
  {| ring_buffer_ := ring_buffer_ b;
     subscribers_ := subscribers_ b;
     published_count_ := published_count_ b;
     processed_count_ := wrap_u64 (processed_count_ b + 1);
     dropped_count_ := dropped_count_ b;
     processing_delay_ms_ := processing_delay_ms_ b;
     sequence_ := sequence_ b |}.

(** The body of the [while (should_continue)] loop of
    [process_messages].  The callbacks' [std::exception]s are caught
    inside [notify], and nothing else in the body throws one, so the
    outer handler (with its 100 ms sleep) is never entered. *)
Definition process_one (b : t) (w : World) : iteration :=
  match RingBuffer.read DEFAULT_RING_BUFFER_SIZE empty_wrapper (ring_buffer_ b) with
  | (rb, wrapper, true) =>
      let b1 := with_ring rb b in
      match type wrapper with
      | MARKET_DATA =>
          let d := unwrap wrapper in
          let cbs := default [] (subscribers_ b1 !! "market_data") in
          match notify cbs 0 d w with
          | (w', evs, true) =>
              let b2 := count_processed b1 in
              Completed b2 w' (evs ++ delay_sleep b2)
          | (w', evs, false) => Escaped b1 w' evs
          end
      end
  | (_, _, false) => Completed b w (delay_sleep b)
  end.

(** [process_messages(should_continue)] when the run flag is seen set
    [n] times and then cleared.  [Some] when the loop is left through
    the flag, [None] when an uncaught object leaves it. *)
Fixpoint process_messages (n : nat) (b : t) (w : World)
  : option (t * World) * list event :=
  match n with
  | O => (Some (b, w), [])
  | S n' =>
      match process_one b w with
      | Completed b' w' evs =>
          let '(r, evs') := process_messages n' b' w' in (r, evs ++ evs')
      | Escaped _ _ evs => (None, evs)
      end
  end.

(** *** Producer and consumer side by side *)

(** The calls made on one bus, in the order they take effect. *)
Inductive op : Type :=
| OpPublish (topic : string) (d : MarketData)
| OpIterate                         (* one pass of the consumer loop *)
| OpSubscribe (topic : string) (cb : callback)
| OpSetDelay (ms : Z)
| OpGetDelay
| OpGetCounters.

(** The bus, the subscribers' state, and two history variables: the
    envelopes enqueued so far and the envelopes dequeued so far. *)
Record system : Type := mk_system {
  bus : t;
  world : World;
  enqueued : list MessageWrapper;
  dequeued : list MessageWrapper
}.

Definition start (w : World) : system :=
  {| bus := create; world := w; enqueued := []; dequeued := [] |}.

(** One call.  [None]: an object thrown by a callback left
    [process_messages]; it runs as the body of the consumer thread, so
    the process is terminated. *)
Definition step (o : op) (s : system) : option system :=
  match o with
  | OpPublish topic d =>
      let '(b', ok, _) := publish topic d (bus s) in
      Some {| bus := b'; world := world s;
              enqueued :=
                if ok then
                  enqueued s ++ [make_wrapper d (wrap_u64 (sequence_ (bus s) + 1))]
                else enqueued s;
              dequeued := dequeued s |}
  | OpIterate =>
      let '(_, wrapper, ok) :=
        RingBuffer.read DEFAULT_RING_BUFFER_SIZE empty_wrapper
          (ring_buffer_ (bus s)) in
      match process_one (bus s) (world s) with
      | Completed b' w' _ =>
          Some {| bus := b'; world := w'; enqueued := enqueued s;
                  dequeued := if ok then dequeued s ++ [wrapper] else dequeued s |}
      | Escaped _ _ _ => None
      end
  | OpSubscribe topic cb =>
      Some {| bus := subscribe topic cb (bus s); world := world s;
              enqueued := enqueued s; dequeued := dequeued s |}
  | OpSetDelay ms =>
      Some {| bus := set_processing_delay_ms ms (bus s); world := world s;
              enqueued := enqueued s; dequeued := dequeued s |}
  | OpGetDelay => Some s
  | OpGetCounters => Some s
  end.

Fixpoint exec (ops : list op) (s : system) : option system :=
  match ops with
  | [] => Some s
  | o :: rest =>
      match step o s with
      | Some s' => exec rest s'
      | None => None
      end
  end.

(** A callback whose faults are all [std::exception]s. *)
Definition throws_only_std (cb : callback) : Prop :=
forall d w, snd (cb d w) <> ThrewOther.

(** A callback that raises a [std::exception] on every call. *)
Definition always_faults (cb : callback) : Prop :=
forall d w, exists what, snd (cb d w) = ThrewStd what.

(** The state of the subscribers once each callback of [cbs] has run on
    [d], in order. *)
Definition deliver (cbs : list callback) (d : MarketData) (w : World) : World :=
fold_left (fun w' cb => fst (cb d w')) cbs w.

(** An iteration contains the callbacks' faults: it reaches the end of
    the loop body with every "market_data" callback called once, in
    subscription order, and the processed counter incremented. *)
Definition faults_contained (b : t) (w : World) : Prop :=
exists b' w' evs,
process_one b w = Completed b' w' evs /\
map fst (invoked evs)
  = List.seq 0 (length (default [] (subscribers_ b !! "market_data"))) /\
processed_count_ b' = wrap_u64 (processed_count_ b + 1).

(** What ties the history to the state: the envelopes dequeued so far,
    followed by those waiting in the ring, are the envelopes enqueued so
    far; the two counters count the two histories. *)
Definition fifo_inv (s : system) : Prop :=
exists pending,
RingBuffer.repr DEFAULT_RING_BUFFER_SIZE (ring_buffer_ (bus s)) pending /\
enqueued s = dequeued s ++ pending /\
published_count_ (bus s) = wrap_u64 (Z.of_nat (length (enqueued s))) /\
processed_count_ (bus s) = wrap_u64 (Z.of_nat (length (dequeued s))).

(** An iteration on an empty ring makes no sleep. *)
Definition no_sleep_when_empty (b : t) (w : World) : Prop :=
exists b' w' evs, process_one b w = Completed b' w' evs /\ sleeps evs = [].

(** The number of [publish] calls in [ops]. *)
Fixpoint publish_calls (ops : list op) : nat :=
  match ops with
  | [] => O
  | OpPublish _ _ :: rest => S (publish_calls rest)
  | _ :: rest => publish_calls rest
  end.
End Bus.

Arguments t : clear implicits.
Arguments callback : clear implicits.
Arguments iteration : clear implicits.
Arguments op : clear implicits.
Arguments system : clear implicits.
End MessageBus.

(** ** Sample data *)

Definition sample_tick (p : Z) : MarketData :=
  {| symbol := String.list_byte_of_string "AAPL" ++ repeat x00 12;
     price := p;
     volume := 1000;
     seq := 0;
     timestamp := 1700000000000;
     source := String.list_byte_of_string "HTTP_API" ++ repeat x00 24 |}.

(** Subscribers whose state is the number of ticks received. *)
Definition counting : MessageBus.callback nat := fun _ n => (S n, Returned).

(** [throw std::runtime_error("Test exception")] on every call. *)
Definition faulting : MessageBus.callback nat :=
  fun _ n => (n, ThrewStd "Test exception").

(** [throw 42] on every call. *)
Definition throwing_int : MessageBus.callback nat := fun _ n => (n, ThrewOther).

(** A bus with two subscribers, the first one throwing an [int], and one
    tick in the ring. *)
Definition escaping_bus : MessageBus.t nat :=
  fst (fst (MessageBus.publish "market_data" (sample_tick 0)
              (MessageBus.subscribe "market_data" counting
                 (MessageBus.subscribe "market_data" throwing_int
                    MessageBus.create)))).

(** A bus with a delay of 5 ms and nothing in the ring. *)
Definition delayed_bus : MessageBus.t nat :=
  MessageBus.set_processing_delay_ms 5 MessageBus.create.

(** A tick whose strings fill their arrays, with no NUL. *)
Definition long_tick : MarketData :=
  {| symbol := String.list_byte_of_string "ABCDEFGHIJKLMNOP";
     price := 1;
     volume := 1;
     seq := 0;
     timestamp := 0;
     source := String.list_byte_of_string "0123456789abcdef0123456789abcdef" |}.

(** One subscriber; two ticks published, one consumed, a third published. *)
Definition sample_ops : list (MessageBus.op nat) :=
  [MessageBus.OpSubscribe "market_data" counting;
   MessageBus.OpPublish "market_data" (sample_tick 0);
   MessageBus.OpPublish "market_data" (sample_tick 1);
   MessageBus.OpIterate;
   MessageBus.OpPublish "market_data" (sample_tick 2)].

(** 1023 publishes and no consumer: the ring is full. *)
Definition full_ops : list (MessageBus.op nat) :=
  repeat (MessageBus.OpPublish "market_data" (sample_tick 0)) 1023.

(** ** ring_buffer.hpp: the destructor, and calls in sequence *)

Section RingBufferSequences.
Context {T : Type}.
Variable Size : Z.

(** [~RingBuffer()]:
    [while (read_index_ != write_index_) { get(read_index_).~T();
       read_index_ = (read_index_ + 1) & (Size - 1); }].
    [fuel] bounds the number of passes through the loop; [None] when that
    is not enough. *)
Fixpoint RingBuffer_destructor (fuel : nat) (rb : RingBuffer.t T)
  : option (RingBuffer.t T) :=
  if RingBuffer.read_index_ rb =? RingBuffer.write_index_ rb then Some rb
  else
    match fuel with
    | O => None
    | S fuel' =>
        RingBuffer_destructor fuel'
          {| RingBuffer.buffer_ :=
               delete (RingBuffer.read_index_ rb) (RingBuffer.buffer_ rb);
             RingBuffer.read_index_ :=
               RingBuffer.next_index Size (RingBuffer.read_index_ rb);
             RingBuffer.write_index_ := RingBuffer.write_index_ rb |}
    end.

(** One [write] call per item of [items]; the flags returned, in order. *)
Fixpoint write_all (items : list T) (rb : RingBuffer.t T)
  : RingBuffer.t T * list bool :=
  match items with
  | [] => (rb, [])
  | x :: rest =>
      let '(rb1, ok) := RingBuffer.write Size x rb in
      let '(rb2, oks) := write_all rest rb1 in
      (rb2, ok :: oks)
  end.

(** [n] [read] calls into the same variable [item]; the values delivered
    by the calls that returned [true], in order. *)
Fixpoint read_n (n : nat) (item : T) (rb : RingBuffer.t T)
  : RingBuffer.t T * list T :=
  match n with
  | O => (rb, [])
  | S n' =>
      let '(rb1, item1, ok) := RingBuffer.read Size item rb in
      let '(rb2, xs) := read_n n' item1 rb1 in
      (rb2, if ok then item1 :: xs else xs)
  end.

End RingBufferSequences.

(** ** message_bus.cpp: [reset_counters] in a run, and a whole drain *)

Section BusRuns.
Context {World : Type}.

(** The state of the subscribers once every tick of [ds] has gone through
    the callbacks [cbs], tick after tick. *)
Definition deliver_all (cbs : list (MessageBus.callback World))
           (ds : list MarketData) (w : World) : World :=
  fold_left (fun w' d => MessageBus.deliver cbs d w') ds w.

(** The calls of [cbs] on the ticks [ds]: tick after tick, and for each
    tick callback after callback. *)
Definition fan_out (cbs : list (MessageBus.callback World))
           (ds : list MarketData) : list (nat * MarketData) :=
  flat_map (fun d => map (fun i => (i, d)) (List.seq 0 (length cbs))) ds.

(** A call on the bus: one of [MessageBus.op], or [reset_counters()]. *)
Inductive call : Type :=
| Call (o : MessageBus.op World)
| CallReset.

(** The system and, next to it, the system as it was on return from the
    last [reset_counters()] (as constructed, before the first one). *)
Definition step_call (c : call)
           (st : MessageBus.system World * MessageBus.system World)
  : option (MessageBus.system World * MessageBus.system World) :=
  match c with
  | Call o =>
      match MessageBus.step o (fst st) with
      | Some s' => Some (s', snd st)
      | None => None
      end
  | CallReset =>
      let s' :=
        {| MessageBus.bus := MessageBus.reset_counters (MessageBus.bus (fst st));
           MessageBus.world := MessageBus.world (fst st);
           MessageBus.enqueued := MessageBus.enqueued (fst st);
           MessageBus.dequeued := MessageBus.dequeued (fst st) |} in
      Some (s', s')
  end.

Fixpoint exec_calls (cs : list call)
         (st : MessageBus.system World * MessageBus.system World)
  : option (MessageBus.system World * MessageBus.system World) :=
  match cs with
  | [] => Some st
  | c :: rest =>
      match step_call c st with
      | Some st' => exec_calls rest st'
      | None => None
      end
  end.

(** The number of [publish] calls in [cs]. *)
Fixpoint publish_calls_in (cs : list call) : nat :=
  match cs with
  | [] => O
  | Call (MessageBus.OpPublish _ _) :: rest => S (publish_calls_in rest)
  | _ :: rest => publish_calls_in rest
  end.

(** What a run with resets keeps true of the system [s], with [r] the
    system on return from the last reset: the counters of [s] count what
    was enqueued, dequeued and dropped since [r]. *)
Definition reset_inv (r s : MessageBus.system World) : Prop :=
  exists (enq deq pending_r pending : list MessageWrapper),
    RingBuffer.repr MessageBus.DEFAULT_RING_BUFFER_SIZE
      (MessageBus.ring_buffer_ (MessageBus.bus r)) pending_r /\
    MessageBus.enqueued r = MessageBus.dequeued r ++ pending_r /\
    RingBuffer.repr MessageBus.DEFAULT_RING_BUFFER_SIZE
      (MessageBus.ring_buffer_ (MessageBus.bus s)) pending /\
    MessageBus.enqueued s = MessageBus.dequeued s ++ pending /\
    MessageBus.enqueued s = MessageBus.enqueued r ++ enq /\
    MessageBus.dequeued s = MessageBus.dequeued r ++ deq /\
    MessageBus.published_count_ (MessageBus.bus s) = wrap_u64 (Z.of_nat (length enq)) /\
    MessageBus.processed_count_ (MessageBus.bus s) = wrap_u64 (Z.of_nat (length deq)) /\
    MessageBus.dropped_count_ (MessageBus.bus s)
      = wrap_u64 (MessageBus.sequence_ (MessageBus.bus s)
                  - MessageBus.sequence_ (MessageBus.bus r)
                  - Z.of_nat (length enq)) /\
    MessageBus.published_count_ (MessageBus.bus r) = 0 /\
    MessageBus.processed_count_ (MessageBus.bus r) = 0 /\
    MessageBus.dropped_count_ (MessageBus.bus r) = 0.

(** The delay stored after the calls [ops], when it was [d0] before:
    [std::max(0, ms)] of the last [set_processing_delay_ms(ms)]. *)
Fixpoint last_delay (ops : list (MessageBus.op World)) (d0 : Z) : Z :=
  match ops with
  | [] => d0
  | MessageBus.OpSetDelay ms :: rest => last_delay rest (Z.max 0 ms)
  | _ :: rest => last_delay rest d0
  end.

End BusRuns.

Arguments call : clear implicits.

(** ** server.cpp: the ticks and the loop of the publishing handlers *)

(** [std::string::c_str()]: the bytes of the string and the terminating
    NUL. *)
Definition c_str_of (s : list byte) : list byte := s ++ [x00].

Definition HTTP_API : list byte := String.list_byte_of_string "HTTP_API".

(** The tick [handle_publish] builds from the request:
    [strncpy(market_data.symbol, symbol.c_str(), sizeof - 1);
     market_data.symbol[sizeof - 1] = 0;] and the same for [source] with
    "HTTP_API".  [market_data] is not initialised, so its [seq] is
    whatever was there ([seq0]); price and volume come from the JSON body,
    the timestamp from the clock. *)
Definition http_tick (sym : list byte) (p v : double) (now seq0 : Z) : MarketData :=
  {| symbol := copy_field sizeof_symbol (c_str_of sym);
     price := p;
     volume := v;
     seq := seq0;
     timestamp := now;
     source := copy_field sizeof_source (c_str_of HTTP_API) |}.

(** The tick built in the loop of [handle_publish_bulk]:
    [lockfree::MarketData md{}; strncpy(md.symbol, symbol.c_str(),
    sizeof(md.symbol) - 1); ... strncpy(md.source, "HTTP_API",
    sizeof(md.source) - 1);].  [md{}] is zero-filled: the last byte of
    each array, which no [strncpy] writes, is NUL, and [seq] is 0. *)
Definition bulk_tick (sym : list byte) (p v : double) (now : Z) : MarketData :=
  {| symbol := strncpy (c_str_of sym) (sizeof_symbol - 1) ++ [x00];
     price := p;
     volume := v;
     seq := 0;
     timestamp := now;
     source := strncpy (c_str_of HTTP_API) (sizeof_source - 1) ++ [x00] |}.

Section BulkPublish.
Context {World : Type}.

(** [for (int i = 0; i < count; ++i) { ...;
      if (message_bus_->publish("market_data", md)) success++; else dropped++; }]
    with [n] passes left and [i] the loop variable.  [gen i] gives the
    price and the volume drawn with [std::rand()] and the time read from
    the clock in pass [i]. *)
Fixpoint bulk_loop (n i : nat) (sym : list byte) (gen : nat -> double * double * Z)
         (b : MessageBus.t World) (success dropped : Z)
  : MessageBus.t World * Z * Z :=
  match n with
  | O => (b, success, dropped)
  | S n' =>
      let '(p, v, now) := gen i in
      let '(b', ok, _) := MessageBus.publish "market_data" (bulk_tick sym p v now) b in
      if ok then bulk_loop n' (S i) sym gen b' (success + 1) dropped
      else bulk_loop n' (S i) sym gen b' success (dropped + 1)
  end.

(** The loop of [handle_publish_bulk] for a request with [count]: the bus
    afterwards and the two numbers reported as "published" and
    "dropped". *)
Definition handle_publish_bulk_loop (count : Z) (sym : list byte)
           (gen : nat -> double * double * Z) (b : MessageBus.t World)
  : MessageBus.t World * Z * Z :=
  bulk_loop (Z.to_nat count) 0 sym gen b 0 0.

(** The envelopes a bulk request enqueues when its first [k] publishes
    succeed on a bus whose sequence counter is [s0]. *)
Definition bulk_envelopes (k : nat) (sym : list byte)
           (gen : nat -> double * double * Z) (s0 : Z) : list MessageWrapper :=
  map (fun i => let '(p, v, now) := gen i in
                MessageBus.make_wrapper (bulk_tick sym p v now)
                  (wrap_u64 (s0 + Z.of_nat i + 1)))
      (List.seq 0 k).

End BulkPublish.

(** ** server.cpp: the write queue of [WebSocketSession] *)

Module WebSocketSession.

(** The two data members the write path uses. *)
Record t : Type := mk {
  outgoing_messages_ : list string;   (* std::deque<std::string> *)
  write_in_progress_ : bool
}.

Definition init : t :=
  {| outgoing_messages_ := []; write_in_progress_ := false |}.

(** The task [send_text(message)] posts to the executor of the socket, as
    it runs there; [is_open] is what [ws_.is_open()] answers then.  Next
    to the session: the buffers of the [async_write]s started. *)
Definition send_text_task (is_open : bool) (msg : string) (s : t) : t * list string :=
  if is_open then
    let q := outgoing_messages_ s ++ [msg] in
    if write_in_progress_ s
    then ({| outgoing_messages_ := q; write_in_progress_ := true |}, [])
    else ({| outgoing_messages_ := q; write_in_progress_ := true |},
          match q with front :: _ => [front] | [] => [] end)
  else (s, []).

(** [on_write(ec, bytes_transferred)]; [ec] is [true] for an error. *)
Definition on_write (ec : bool) (s : t) : t * list string :=
  if ec then (s, [])
  else
    let q := match outgoing_messages_ s with
             | [] => []
             | _ :: rest => rest          (* pop_front() *)
             end in
    match q with
    | front :: _ =>
        ({| outgoing_messages_ := q; write_in_progress_ := write_in_progress_ s |},
         [front])
    | [] => ({| outgoing_messages_ := q; write_in_progress_ := false |}, [])
    end.

(** What happens on the socket's executor. *)
Inductive event : Type :=
| SendText (is_open : bool) (msg : string)   (* a posted send_text task runs *)
| WriteCompleted (ec : bool).                (* an async_write completes *)

(** The session with its history: the writes started and not completed,
    the messages whose write completed without error, and the messages
    queued so far. *)
Record run : Type := mk_run {
  session : t;
  in_flight : list string;
  written : list string;
  accepted : list string
}.

Definition start : run :=
  {| session := init; in_flight := []; written := []; accepted := [] |}.

(** One event.  [None]: a completion although no write is outstanding,
    which the socket never reports. *)
Definition step (e : event) (r : run) : option run :=
  match e with
  | SendText is_open msg =>
      let '(s', started) := send_text_task is_open msg (session r) in
      Some {| session := s';
              in_flight := in_flight r ++ started;
              written := written r;
              accepted := if is_open then accepted r ++ [msg] else accepted r |}
  | WriteCompleted ec =>
      match in_flight r with
      | [] => None
      | m :: rest =>
          let '(s', started) := on_write ec (session r) in
          Some {| session := s';
                  in_flight := rest ++ started;
                  written := if ec then written r else written r ++ [m];
                  accepted := accepted r |}
      end
  end.

Fixpoint exec (evs : list event) (r : run) : option run :=
  match evs with
  | [] => Some r
  | e :: rest =>
      match step e r with
      | Some r' => exec rest r'
      | None => None
      end
  end.

(** The three states the write path can be in: idle, one write under way
    for the message at the front of the queue, or stopped by an error. *)
Definition write_path_inv (r : run) : Prop :=
  written r ++ outgoing_messages_ (session r) = accepted r /\
  ((in_flight r = [] /\ write_in_progress_ (session r) = false /\
    outgoing_messages_ (session r) = []) \/
   (exists m rest, in_flight r = [m] /\ write_in_progress_ (session r) = true /\
                   outgoing_messages_ (session r) = m :: rest) \/
   (in_flight r = [] /\ write_in_progress_ (session r) = true)).

End WebSocketSession.

(** ** market_data_types.hpp: [CircularBuffer] *)

Module CircularBuffer.

Record t (T : Type) : Type := mk {
  buffer_ : list T;     (* std::deque<T> *)
  max_size_ : nat       (* size_t *)
}.
Arguments mk {T} _ _.
Arguments buffer_ {T} _.
Arguments max_size_ {T} _.

Section Operations.
Context {T : Type}.

(** [explicit CircularBuffer(size_t size)] *)
Definition make (size : nat) : t T := {| buffer_ := []; max_size_ := size |}.

(** [void push(const T& item)].  [pop_front()] on an empty deque, which
    only a [max_size_] of 0 leads to, is undefined in C++; here it leaves
    the deque empty. *)
Definition push (item : T) (cb : t T) : t T :=
  let b := if Nat.leb (max_size_ cb) (length (buffer_ cb))
           then tl (buffer_ cb) else buffer_ cb in
  {| buffer_ := b ++ [item]; max_size_ := max_size_ cb |}.

Definition get_all (cb : t T) : list T := buffer_ cb.
Definition size (cb : t T) : nat := length (buffer_ cb).
Definition empty (cb : t T) : bool :=
  match buffer_ cb with [] => true | _ => false end.
Definition full (cb : t T) : bool := Nat.leb (max_size_ cb) (length (buffer_ cb)).

(** One [push] per item of [items]. *)
Definition push_all (items : list T) (cb : t T) : t T :=
  fold_left (fun c x => push x c) items cb.

End Operations.
End CircularBuffer.

(** ** App.js: the two list updates of the page *)

Section AppLists.
(** A market-data message as the page holds it, and its [symbol]. *)
Context {Msg : Type}.
Variable symbol_of : Msg -> string.

(** [arr.slice(0, n - 1)] for a count [n]: with [n = 0] the end index is
    [-1], which counts from the end. *)
Definition slice_0_pred (n : nat) (arr : list Msg) : list Msg :=
  match n with
  | O => removelast arr
  | S n' => firstn n' arr
  end.

(** [arr.findIndex(p)]: [None] stands for [-1]. *)
Fixpoint findIndex (p : Msg -> bool) (arr : list Msg) : option nat :=
  match arr with
  | [] => None
  | m :: rest => if p m then Some O else option_map S (findIndex p rest)
  end.

(** The updater given to [setMessages] in [onmessage], with
    [MAX = config.MAX_MESSAGES]. *)
Definition add_message (MAX : nat) (data : Msg) (prev : list Msg) : list Msg :=
  match prev with
  | [] => firstn MAX (data :: prev)
  | top :: _ =>
      if negb (String.eqb (symbol_of top) (symbol_of data))
      then firstn MAX (data :: prev)
      else
        match findIndex (fun m => negb (String.eqb (symbol_of m) (symbol_of data))) prev with
        | None => slice_0_pred MAX prev ++ [data]
        | Some insertAt =>
            firstn MAX (firstn insertAt prev ++ data :: skipn insertAt prev)
        end
  end.

End AppLists.

(** [arr.slice(-n)]: the last [n] elements; [slice(-0)] is [slice(0)], the
    whole array. *)
Definition slice_last {A : Type} (n : nat) (arr : list A) : list A :=
  match n with
  | O => arr
  | S _ => skipn (length arr - n) arr
  end.

(** The updater given to [setHistory] in [fetchStats], with
    [POINTS = config.HISTORY_POINTS] and [x = data.buffer_size ?? 0]. *)
Definition add_history (POINTS : nat) (x : Z) (prev : list Z) : list Z :=
  slice_last POINTS (prev ++ [x]).

(** ** More sample data *)

(** One counting subscriber and two ticks in the ring. *)
Definition two_tick_bus : MessageBus.t nat :=
  fst (fst (MessageBus.publish "market_data" (sample_tick 1)
     (fst (fst (MessageBus.publish "market_data" (sample_tick 0)
                  (MessageBus.subscribe "market_data" counting MessageBus.create)))))).

(** Prices 0, 1, 2, ... with volume 1 at time 0. *)
Definition sample_gen (i : nat) : double * double * Z := (Z.of_nat i, 1, 0).

(** Two publishes, a reset, one pass of the consumer loop. *)
Definition reset_calls : list (call nat) :=
  [Call (MessageBus.OpPublish "market_data" (sample_tick 0));
   Call (MessageBus.OpPublish "market_data" (sample_tick 1));
   CallReset;
   Call MessageBus.OpIterate].

(** A page message: its symbol and its sequence number. *)
Definition page_message : Type := string * Z.

(** ** replay_engine.hpp / replay_engine.cpp: the historical replay *)

Module ReplayEngine.

(** What the replay thread does that can be seen from outside. *)
Inductive event (Msg : Type) : Type :=
| EvSleepFor (ms : Z)         (* std::this_thread::sleep_for(delay) *)
| EvCallback (message : Msg). (* callback_(message) *)
Arguments EvSleepFor {Msg} _.
Arguments EvCallback {Msg} _.

Section Replay.
(** The subscriber's state and the message type
    ([NormalizedMarketData]). *)
Context {World Msg : Type}.
(** [message.timestamp], as a count of clock ticks. *)
Variable timestamp_of : Msg -> Z.
(** [duration_cast<milliseconds>(time_diff / speed_multiplier_.load())]:
    a division by a [double], left uninterpreted. *)
Variable scaled_delay : Z -> double -> Z.
(** [callback_], when it returns. *)
Variable callback_ : Msg -> World -> World.

(** The data members the replay uses.  [replay_thread_] is the
    [std::thread] member, of which only [joinable()] matters here: [false]
    for a default-constructed or joined thread, [true] from the start of a
    thread until it is joined, also after its function has returned.
    ([last_message_time_] is written by [start_replay] and never read.) *)
Record t : Type := mk {
  historical_data_ : list Msg;
  running_ : bool;               (* std::atomic<bool> *)
  speed_multiplier_ : double;    (* std::atomic<double> *)
  current_index_ : nat;          (* size_t *)
  replay_thread_ : bool          (* std::thread: joinable() *)
}.

(** How a call of [start_replay] ends: it returns without a thread (with
    what it wrote to [std::cerr]), it returns with the replay thread
    started, or it ends the process. *)
Inductive start_result : Type :=
| NotStarted (e : t) (cerr : list string)
| Started (e : t)
| Terminated.

(** [start_replay(speed_multiplier)], up to the start of the thread.
    [replay_thread_ = std::thread(...)] is a move assignment: on a
    [std::thread] that is still joinable it calls [std::terminate()]. *)
Definition start_replay (speed_multiplier : double) (e : t) : start_result :=
  if running_ e then NotStarted e []
  else
    match historical_data_ e with
    | [] => NotStarted e ["No historical data loaded"%string]
    | _ :: _ =>
        if replay_thread_ e then Terminated
        else
          Started {| historical_data_ := historical_data_ e;
                     running_ := true;
                     speed_multiplier_ := speed_multiplier;
                     current_index_ := 0;
                     replay_thread_ := true |}
    end.

(** [stop_replay()] on an engine whose thread is not inside its loop (it
    was never started, or its function has returned):
    [running_ = false; if (replay_thread_.joinable()) replay_thread_.join();]. *)
Definition stop_replay (e : t) : t :=
  {| historical_data_ := historical_data_ e;
     running_ := false;
     speed_multiplier_ := speed_multiplier_ e;
     current_index_ := current_index_ e;
     replay_thread_ := false |}.

(** [process_next_message()] *)
Definition process_next_message (e : t) (w : World) : t * World * list (event Msg) :=
  match nth_error (historical_data_ e) (current_index_ e) with
  | None => (e, w, [])          (* current_index_ >= historical_data_.size() *)
  | Some message =>
      let sleep :=
        match current_index_ e with
        | O => []
        | S before =>
            match nth_error (historical_data_ e) before with
            | Some previous =>
                [EvSleepFor (scaled_delay (timestamp_of message - timestamp_of previous)
                               (speed_multiplier_ e))]
            | None => []
            end
        end in
      ({| historical_data_ := historical_data_ e;
          running_ := running_ e;
          speed_multiplier_ := speed_multiplier_ e;
          current_index_ := S (current_index_ e);
          replay_thread_ := replay_thread_ e |},
       callback_ message w,
       sleep ++ [EvCallback message])
  end.

(** [replay_thread()], when no other thread calls [stop_replay] meanwhile:
    [while (running_ && current_index_ < historical_data_.size())
       process_next_message();  running_ = false;].
    [fuel] bounds the number of passes; [None] when that is not enough. *)
Fixpoint replay_thread (fuel : nat) (e : t) (w : World)
  : option (t * World * list (event Msg)) :=
  if running_ e && Nat.ltb (current_index_ e) (length (historical_data_ e)) then
    match fuel with
    | O => None
    | S fuel' =>
        let '(e1, w1, evs1) := process_next_message e w in
        match replay_thread fuel' e1 w1 with
        | Some (e2, w2, evs2) => Some (e2, w2, evs1 ++ evs2)
        | None => None
        end
    end
  else
    Some ({| historical_data_ := historical_data_ e;
             running_ := false;
             speed_multiplier_ := speed_multiplier_ e;
             current_index_ := current_index_ e;
             replay_thread_ := replay_thread_ e |}, w, []).

End Replay.
End ReplayEngine.

(** ** server.cpp: the subscriber a WebSocket session registers *)

Section SessionSubscribers.
(** [json{...}.dump()] of the message built from a tick: the text, or the
    [what()] of the exception [dump] throws (on a string that is not
    UTF-8). *)
Variable dump : MarketData -> string + string.

(** For every session, by number, the texts it has posted to its
    executor with [send_text], oldest first. *)
Definition posted (i : nat) (w : gmap nat (list string)) : list string :=
  default [] (w !! i).

(** The closure session [i] subscribes in [on_accept]:
    [json message = {...}; self->send_text(message.dump());] *)
Definition session_callback (i : nat) : MessageBus.callback (gmap nat (list string)) :=
  fun d w =>
    match dump d with
    | inl text => (<[i := posted i w ++ [text]]> w, Returned)
    | inr what => (w, ThrewStd what)
    end.

(** The texts the ticks [ds] give, in order. *)
Definition texts (ds : list MarketData) : list string :=
  flat_map (fun d => match dump d with inl text => [text] | inr _ => [] end) ds.

End SessionSubscribers.

(** A [dump] that fails on the tick numbered 2. *)
Definition sample_dump (d : MarketData) : string + string :=
  if seq d =? 2 then inr "invalid UTF-8 byte"%string else inl "tick"%string.

(** Sessions 0 and 1 subscribed, three ticks in the ring. *)
Definition sessions_bus : MessageBus.t (gmap nat (list string)) :=
  fst (fst (MessageBus.publish "market_data" (sample_tick 2)
     (fst (fst (MessageBus.publish "market_data" (sample_tick 1)
        (fst (fst (MessageBus.publish "market_data" (sample_tick 0)
           (MessageBus.subscribe "market_data" (session_callback sample_dump 1)
              (MessageBus.subscribe "market_data" (session_callback sample_dump 0)
                 MessageBus.create)))))))))).

(** * Properties *)

(** ** Powers of two and masks *)

Section Pow2.
Variable Size : Z.
Hypothesis Size_pos : 0 < Size.
Hypothesis Size_pow2 : Z.land Size (Size - 1) = 0.

Lemma Size_is_pow2 : Size = 2 ^ Z.log2 Size.
Proof.
  pose proof (Z.log2_spec Size Size_pos) as [Hlo Hhi].
  pose proof (Z.log2_nonneg Size) as Hk.
  destruct (Z.eq_dec Size (2 ^ Z.log2 Size)) as [|Hne]; [assumption|exfalso].
  assert (Hb1 : Z.testbit Size (Z.log2 Size) = true) by (apply Z.bit_log2; lia).
  assert (Hl : Z.log2 (Size - 1) = Z.log2 Size).
  { apply Z.log2_unique; [assumption|]. lia. }
  assert (Hb2 : Z.testbit (Size - 1) (Z.log2 Size) = true).
  { rewrite <- Hl. apply Z.bit_log2. lia. }
  assert (Hb : Z.testbit (Z.land Size (Size - 1)) (Z.log2 Size) = true).
  { rewrite Z.land_spec, Hb1, Hb2. reflexivity. }
  rewrite Size_pow2, Z.bits_0 in Hb. discriminate.
Qed.

Lemma land_mask (x : Z) : Z.land x (Size - 1) = x mod Size.
Proof.
  rewrite Size_is_pow2 at 1 2.
  replace (2 ^ Z.log2 Size - 1) with (Z.ones (Z.log2 Size)).
  - apply Z.land_ones, Z.log2_nonneg.
  - rewrite Z.ones_equiv. lia.
Qed.

Hypothesis Size_fits : Size < 2 ^ 64.

Lemma Size_divides_word : (Size | 2 ^ 64).
Proof.
  pose proof (Z.log2_nonneg Size) as Hk.
  assert (Hlt : Z.log2 Size < 64).
  { apply (Z.pow_lt_mono_r_iff 2); [lia | lia |]. rewrite <- Size_is_pow2. assumption. }
  exists (2 ^ (64 - Z.log2 Size)).
  rewrite Size_is_pow2 at 2. rewrite <- Z.pow_add_r by lia. f_equal. lia.
Qed.

Lemma wrap_mod_Size (x : Z) : wrap_size_t x mod Size = x mod Size.
Proof.
  unfold wrap_size_t. apply Z.mod_mod_divide, Size_divides_word.
Qed.
End Pow2.

(** ** The ring as a queue *)

Lemma mod_wrap_once (n x : Z) :
  0 < n -> 0 <= x < 2 * n -> x mod n = if x <? n then x else x - n.
Proof.
  intros Hn Hx. destruct (Z.ltb_spec x n).
  - apply Z.mod_small. lia.
  - symmetry. apply (Z.mod_unique x n 1); lia.
Qed.

Section RingBufferFacts.
Context {T : Type}.
Variable Size : Z.
Hypothesis Size_pos : 0 < Size.
Hypothesis Size_pow2 : Z.land Size (Size - 1) = 0.
Hypothesis Size_fits : Size < 2 ^ 64.

Import RingBuffer.

Lemma next_index_mod (i : Z) : next_index Size i = (i + 1) mod Size.
Proof.
  unfold next_index. rewrite land_mask by assumption.
  apply wrap_mod_Size; assumption.
Qed.

Lemma size_mod (rb : t T) :
  size Size rb = (write_index_ rb - read_index_ rb) mod Size.
Proof.
  unfold size. rewrite land_mask by assumption.
  apply wrap_mod_Size; assumption.
Qed.

Lemma reachable_bounds (rb : t T) :
  reachable Size rb ->
  0 <= read_index_ rb < Size /\ 0 <= write_index_ rb < Size.
Proof.
  induction 1 as [|item rb _ [IHr IHw]|item rb _ [IHr IHw]].
  - simpl. lia.
  - unfold write. destruct (_ =? _); simpl; [lia|].
    rewrite next_index_mod. split; [lia | apply Z.mod_pos_bound; lia].
  - unfold read. destruct (_ =? _); simpl; [lia|].
    rewrite next_index_mod. split; [apply Z.mod_pos_bound; lia | lia].
Qed.

Lemma repr_init : repr Size (@init T) [].
Proof.
  unfold repr; simpl. repeat split; try lia.
  intros i x Hi. rewrite lookup_nil in Hi. discriminate.
Qed.

Lemma repr_size (rb : t T) (l : list T) :
  repr Size rb l -> size Size rb = Z.of_nat (length l).
Proof.
  intros (Hr & Hw & Hl & Hwr & _). rewrite size_mod, Hwr.
  rewrite Zminus_mod_idemp_l.
  replace (read_index_ rb + Z.of_nat (length l) - read_index_ rb)
    with (Z.of_nat (length l)) by lia.
  apply Z.mod_small. lia.
Qed.

Lemma ring_offsets_distinct (r a b : Z) :
  0 <= r < Size -> 0 <= a < Size -> 0 <= b < Size ->
  (r + a) mod Size = (r + b) mod Size -> a = b.
Proof.
  intros Hr Ha Hb.
  rewrite !mod_wrap_once by lia.
  destruct (Z.ltb_spec (r + a) Size), (Z.ltb_spec (r + b) Size); lia.
Qed.

Lemma repr_write_full (item : T) (rb : t T) (l : list T) :
  repr Size rb l -> Z.of_nat (length l) = Size - 1 ->
  write Size item rb = (rb, false).
Proof.
  intros (Hr & Hw & Hl & Hwr & _) Hfull. unfold write.
  rewrite next_index_mod, Hwr, Z.add_mod_idemp_l by lia.
  replace (read_index_ rb + Z.of_nat (length l) + 1)
    with (read_index_ rb + 1 * Size) by lia.
  rewrite Z.mod_add by lia. rewrite Z.mod_small by lia.
  rewrite Z.eqb_refl. reflexivity.
Qed.

Lemma repr_write_ok (item : T) (rb : t T) (l : list T) :
  repr Size rb l -> Z.of_nat (length l) < Size - 1 ->
  exists rb', write Size item rb = (rb', true) /\ repr Size rb' (l ++ [item]).
Proof.
  intros (Hr & Hw & Hl & Hwr & Hslots) Hroom. unfold write.
  assert (Hnext : next_index Size (write_index_ rb)
                  = (read_index_ rb + Z.of_nat (length l) + 1) mod Size).
  { rewrite next_index_mod, Hwr, Z.add_mod_idemp_l by lia. reflexivity. }
  rewrite Hnext.
  destruct (Z.eqb_spec ((read_index_ rb + Z.of_nat (length l) + 1) mod Size)
              (read_index_ rb)) as [Heq|Hne].
  - exfalso.
    assert (Z.of_nat (length l) + 1 = 0); [|lia].
    apply (ring_offsets_distinct (read_index_ rb)); try lia.
    rewrite Z.add_assoc, Heq, Z.add_0_r. symmetry. apply Z.mod_small. lia.
  - eexists. split; [reflexivity|].
    unfold repr; simpl. rewrite length_app. simpl.
    repeat split; try lia.
    + apply Z.mod_pos_bound; lia.
    + apply Z.mod_pos_bound; lia.
    + f_equal. lia.
    + intros i x Hi.
      destruct (Nat.lt_ge_cases i (length l)) as [Hlt|Hge].
      * rewrite lookup_app_l in Hi by assumption.
        rewrite lookup_insert_ne; [apply Hslots; assumption|].
        rewrite Hwr. intros Heq.
        apply ring_offsets_distinct in Heq; lia.
      * rewrite lookup_app_r in Hi by assumption.
        destruct (i - length l)%nat eqn:Hd; simpl in Hi; [|rewrite lookup_nil in Hi; discriminate].
        injection Hi as <-.
        replace i with (length l) by lia.
        rewrite Hwr. apply lookup_insert_eq.
Qed.

Lemma repr_read_nil (item : T) (rb : t T) :
  repr Size rb [] -> read Size item rb = (rb, item, false).
Proof.
  intros (Hr & Hw & Hl & Hwr & _). unfold read. simpl in Hwr.
  rewrite Z.add_0_r, Z.mod_small in Hwr by lia.
  rewrite Hwr, Z.eqb_refl. reflexivity.
Qed.

Lemma repr_read_cons (item x : T) (rb : t T) (l : list T) :
  repr Size rb (x :: l) ->
  exists rb', read Size item rb = (rb', x, true) /\ repr Size rb' l.
Proof.
  intros (Hr & Hw & Hl & Hwr & Hslots). unfold read.
  simpl length in *.
  destruct (Z.eqb_spec (read_index_ rb) (write_index_ rb)) as [Heq|Hne].
  - exfalso. rewrite Hwr in Heq.
    assert (Z.of_nat (S (length l)) = 0); [|lia].
    apply (ring_offsets_distinct (read_index_ rb)); try lia.
    rewrite <- Heq, Z.add_0_r. symmetry. apply Z.mod_small. lia.
  - pose proof (Hslots O x eq_refl) as H0. simpl in H0.
    rewrite Z.add_0_r, Z.mod_small in H0 by lia.
    rewrite H0. simpl. eexists. split; [reflexivity|].
    unfold repr; simpl. rewrite next_index_mod.
    repeat split; try lia.
    + apply Z.mod_pos_bound; lia.
    + apply Z.mod_pos_bound; lia.
    + rewrite Hwr, Z.add_mod_idemp_l by lia. f_equal. lia.
    + intros i y Hi.
      rewrite Z.add_mod_idemp_l by lia.
      replace (read_index_ rb + 1 + Z.of_nat i)
        with (read_index_ rb + Z.of_nat (S i)) by lia.
      assert (Hlt : (i < length l)%nat) by (eapply lookup_lt_Some; eassumption).
      rewrite lookup_delete_ne; [apply Hslots; assumption|].
      intros Heq.
      assert (0 = Z.of_nat (S i)); [|lia].
      apply (ring_offsets_distinct (read_index_ rb)); try lia.
      rewrite <- Heq, Z.add_0_r. apply Z.mod_small; lia.
Qed.

Lemma reachable_repr (rb : t T) : reachable Size rb -> exists l, repr Size rb l.
Proof.
  induction 1 as [|item rb _ [l Hl]|item rb _ [l Hl]].
  - exists []. apply repr_init.
  - assert (Hlen : Z.of_nat (length l) < Size) by apply Hl.
    destruct (Z.eq_dec (Z.of_nat (length l)) (Size - 1)) as [Hfull|Hroom].
    + rewrite (repr_write_full item rb l Hl Hfull). exists l. exact Hl.
    + destruct (repr_write_ok item rb l Hl) as (rb' & -> & Hrb'); [lia|].
      eexists. exact Hrb'.
  - destruct l as [|x l].
    + rewrite (repr_read_nil item rb Hl). exists []. exact Hl.
    + destruct (repr_read_cons item x rb l Hl) as (rb' & -> & Hrb').
      exists l. exact Hrb'.
Qed.

Lemma repr_is_full (rb : t T) (l : list T) :
  repr Size rb l -> is_full Size rb = true <-> Z.of_nat (length l) = Size - 1.
Proof.
  intros Hl. unfold is_full, capacity.
  rewrite (repr_size rb l Hl). apply Z.eqb_eq.
Qed.

End RingBufferFacts.

(** ** [write], [size], [capacity], [is_full], [is_empty] *)

Section RingBufferClaims.
Context {T : Type}.
Variable Size : Z.
Hypothesis Size_pos : 0 < Size.
Hypothesis Size_pow2 : Z.land Size (Size - 1) = 0.
Hypothesis Size_fits : Size < 2 ^ 64.

Import RingBuffer.

(** C4. [write] computes the candidate next write position
    [(write_index_ + 1) & (Size - 1)], the position after the write position
    on the ring.  When the candidate is the read position, [write] returns
    [false] and the buffer (positions and slots) is unchanged.  Otherwise it
    returns [true], the slot at the old write position holds the item, every
    other slot and the read position are unchanged, and the write position
    is the candidate. *)
Theorem write_full_or_store (item : T) (rb : t T) :
  let candidate := Z.land (wrap_size_t (write_index_ rb + 1)) (Size - 1) in
  (0 <= write_index_ rb < Size -> candidate = (write_index_ rb + 1) mod Size) /\
  (candidate = read_index_ rb -> write Size item rb = (rb, false)) /\
  (candidate <> read_index_ rb ->
   exists rb',
     write Size item rb = (rb', true) /\
     buffer_ rb' !! write_index_ rb = Some item /\
     (forall j, j <> write_index_ rb -> buffer_ rb' !! j = buffer_ rb !! j) /\
     read_index_ rb' = read_index_ rb /\
     write_index_ rb' = candidate).
Proof.
  intros candidate. split; [|split].
  - intros _. apply (next_index_mod Size); assumption.
  - intros Heq. unfold write, next_index. fold candidate.
    rewrite (proj2 (Z.eqb_eq _ _) Heq). reflexivity.
  - intros Hne. unfold write, next_index. fold candidate.
    rewrite (proj2 (Z.eqb_neq _ _) Hne).
    eexists. split; [reflexivity|]. simpl. repeat split.
    + apply lookup_insert_eq.
    + intros j Hj. apply lookup_insert_ne. congruence.
Qed.

(** C5. In every reachable state of a ring buffer whose [Size] is a power
    of two: [size()] is [(write - read) mod Size], [capacity()] is
    [Size - 1], [is_full()] holds iff [size() == capacity()], [is_empty()]
    holds iff [size() == 0], and with a capacity of at least one the buffer
    is never full and empty at once. *)
Theorem size_capacity_full_empty (rb : t T) :
  reachable Size rb ->
  size Size rb = (write_index_ rb - read_index_ rb) mod Size /\
  capacity Size = Size - 1 /\
  (is_full Size rb = true <-> size Size rb = capacity Size) /\
  (is_empty rb = true <-> size Size rb = 0) /\
  (1 <= capacity Size -> ~ (is_full Size rb = true /\ is_empty rb = true)).
Proof.
  intros Hreach.
  destruct (reachable_bounds Size Size_pos Size_pow2 Size_fits rb Hreach) as [Hr Hw].
  pose proof (size_mod Size Size_pos Size_pow2 Size_fits rb) as Hsize.
  assert (Hempty : is_empty rb = true <-> size Size rb = 0).
  { unfold is_empty. rewrite Z.eqb_eq, Hsize. split.
    - intros ->. rewrite Z.sub_diag. apply Z.mod_0_l. lia.
    - intros H0.
      destruct (Z.lt_ge_cases (write_index_ rb) (read_index_ rb)).
      + replace (write_index_ rb - read_index_ rb)
          with (write_index_ rb - read_index_ rb + Size + (-1) * Size) in H0 by lia.
        rewrite Z.mod_add, Z.mod_small in H0; lia.
      + rewrite Z.mod_small in H0; lia. }
  repeat split.
  - exact Hsize.
  - unfold is_full. apply Z.eqb_eq.
  - unfold is_full. apply Z.eqb_eq.
  - apply Hempty.
  - apply Hempty.
  - intros Hcap [Hfull Hemp]. unfold is_full in Hfull.
    apply Z.eqb_eq in Hfull. apply Hempty in Hemp.
    unfold capacity in *. lia.
Qed.

End RingBufferClaims.

(** A buffer of eight slots, empty: the first write stores into slot 0. *)
Lemma write_full_or_store_witness :
  let rb := @RingBuffer.init Z in
  let candidate := Z.land (wrap_size_t (RingBuffer.write_index_ rb + 1)) (8 - 1) in
  (0 <= RingBuffer.write_index_ rb < 8 ->
   candidate = (RingBuffer.write_index_ rb + 1) mod 8) /\
  (candidate = RingBuffer.read_index_ rb -> RingBuffer.write 8 42 rb = (rb, false)) /\
  (candidate <> RingBuffer.read_index_ rb ->
   exists rb',
     RingBuffer.write 8 42 rb = (rb', true) /\
     RingBuffer.buffer_ rb' !! RingBuffer.write_index_ rb = Some 42 /\
     (forall j, j <> RingBuffer.write_index_ rb ->
                RingBuffer.buffer_ rb' !! j = RingBuffer.buffer_ rb !! j) /\
     RingBuffer.read_index_ rb' = RingBuffer.read_index_ rb /\
     RingBuffer.write_index_ rb' = candidate).
Proof.
  apply (write_full_or_store 8); [lia | reflexivity | lia].
Defined.

Lemma size_capacity_full_empty_witness :
  let rb := fst (RingBuffer.write 8 42 (@RingBuffer.init Z)) in
  RingBuffer.size 8 rb = (RingBuffer.write_index_ rb - RingBuffer.read_index_ rb) mod 8 /\
  RingBuffer.capacity 8 = 8 - 1 /\
  (RingBuffer.is_full 8 rb = true <-> RingBuffer.size 8 rb = RingBuffer.capacity 8) /\
  (RingBuffer.is_empty rb = true <-> RingBuffer.size 8 rb = 0) /\
  (1 <= RingBuffer.capacity 8 ->
   ~ (RingBuffer.is_full 8 rb = true /\ RingBuffer.is_empty rb = true)).
Proof.
  apply (size_capacity_full_empty 8); [lia | reflexivity | lia |].
  apply RingBuffer.reach_write, RingBuffer.reach_init.
Defined.

(** ** The bus *)

Lemma SIZE_pos : 0 < MessageBus.DEFAULT_RING_BUFFER_SIZE.
Proof. reflexivity. Qed.

Lemma SIZE_pow2 :
  Z.land MessageBus.DEFAULT_RING_BUFFER_SIZE (MessageBus.DEFAULT_RING_BUFFER_SIZE - 1) = 0.
Proof. reflexivity. Qed.

Lemma SIZE_fits : MessageBus.DEFAULT_RING_BUFFER_SIZE < 2 ^ 64.
Proof. reflexivity. Qed.

Lemma wrap_u64_small (x : Z) : 0 <= x < 2 ^ 64 -> wrap_u64 x = x.
Proof. intros H. apply Z.mod_small. exact H. Qed.

Lemma wrap_u64_succ (x : Z) : wrap_u64 (wrap_u64 x + 1) = wrap_u64 (x + 1).
Proof. unfold wrap_u64. apply Z.add_mod_idemp_l. lia. Qed.

Lemma wrap_u64_add_l (x y : Z) : wrap_u64 (wrap_u64 x + y) = wrap_u64 (x + y).
Proof. unfold wrap_u64. apply Z.add_mod_idemp_l. lia. Qed.

Section BusFacts.
Context {World : Type}.
Import MessageBus.

Abbreviation SIZE := DEFAULT_RING_BUFFER_SIZE.
Abbreviation bus_t := (MessageBus.t World).
Abbreviation callback := (MessageBus.callback World).
Abbreviation system := (MessageBus.system World).

(** *** The callback loop *)

Lemma notify_no_sleep (cbs : list callback) (i : nat) (d : MarketData) (w : World) :
  sleeps (snd (fst (notify cbs i d w))) = [].
Proof.
  revert i w. induction cbs as [|cb rest IH]; intros i w; simpl; [reflexivity|].
  destruct (cb d w) as [w' [|what|]]; simpl; [| |reflexivity].
  - specialize (IH (S i) w'). destruct (notify rest (S i) d w') as [[w'' evs] ok].
    simpl in *. exact IH.
  - specialize (IH (S i) w'). destruct (notify rest (S i) d w') as [[w'' evs] ok].
    simpl in *. exact IH.
Qed.

Lemma notify_std (cbs : list callback) (i : nat) (d : MarketData) (w : World) :
  Forall throws_only_std cbs ->
  exists evs,
    notify cbs i d w = (deliver cbs d w, evs, true) /\
    invoked evs = map (fun j => (j, d)) (List.seq i (length cbs)).
Proof.
  intros Hstd. revert i w.
  induction Hstd as [|cb rest Hcb _ IH]; intros i w; simpl.
  - exists []. split; reflexivity.
  - specialize (Hcb d w). unfold deliver. simpl.
    destruct (cb d w) as [w' [|what|]]; simpl in *; [| |congruence].
    + destruct (IH (S i) w') as (evs & -> & Hinv).
      eexists. split; [reflexivity|]. simpl. rewrite Hinv. reflexivity.
    + destruct (IH (S i) w') as (evs & -> & Hinv).
      eexists. split; [reflexivity|]. simpl. rewrite Hinv. reflexivity.
Qed.

(** *** One pass of the consumer loop *)

Lemma process_one_empty (b : bus_t) (w : World) :
  RingBuffer.is_empty (ring_buffer_ b) = true ->
  process_one b w = Completed b w (delay_sleep b).
Proof.
  unfold RingBuffer.is_empty, process_one, RingBuffer.read.
  intros ->. reflexivity.
Qed.

Lemma process_one_head (b : bus_t) (w : World) (x : MessageWrapper)
      (l : list MessageWrapper) :
  RingBuffer.repr SIZE (ring_buffer_ b) (x :: l) ->
  exists rb,
    RingBuffer.read SIZE empty_wrapper (ring_buffer_ b) = (rb, x, true) /\
    RingBuffer.repr SIZE rb l /\
    process_one b w =
      match notify (default [] (subscribers_ b !! "market_data")) 0 (unwrap x) w with
      | (w', evs, true) =>
          Completed (count_processed (with_ring rb b)) w' (evs ++ delay_sleep b)
      | (w', evs, false) => Escaped (with_ring rb b) w' evs
      end.
Proof.
  intros Hrepr.
  destruct (repr_read_cons SIZE SIZE_pos SIZE_pow2 SIZE_fits empty_wrapper x _ l Hrepr)
    as (rb & Hread & Hrb).
  exists rb. split; [exact Hread|]. split; [exact Hrb|].
  unfold process_one. rewrite Hread. destruct (type x). reflexivity.
Qed.

Lemma process_one_frame (b b' : bus_t) (w w' : World) (evs : list event) :
  process_one b w = Completed b' w' evs ->
  sequence_ b' = sequence_ b /\
  subscribers_ b' = subscribers_ b /\
  published_count_ b' = published_count_ b /\
  dropped_count_ b' = dropped_count_ b /\
  processing_delay_ms_ b' = processing_delay_ms_ b.
Proof.
  unfold process_one.
  destruct (RingBuffer.read SIZE empty_wrapper (ring_buffer_ b)) as [[rb x] [|]].
  - destruct (type x).
    destruct (notify _ 0 (unwrap x) w) as [[w1 evs1] [|]]; [|discriminate].
    intros [= <- _ _]. repeat split; reflexivity.
  - intros [= <- _ _]. repeat split; reflexivity.
Qed.

(** *** The history invariant *)

Lemma fifo_start (w : World) : fifo_inv (start w).
Proof.
  exists []. split; [apply repr_init; exact SIZE_pos|].
  simpl. repeat split; reflexivity.
Qed.

Lemma repr_is_empty (rb : RingBuffer.t MessageWrapper) :
  RingBuffer.repr SIZE rb [] -> RingBuffer.is_empty rb = true.
Proof.
  intros (Hr & Hw & Hl & Hwr & _). unfold RingBuffer.is_empty. simpl in Hwr.
  rewrite Z.add_0_r, Z.mod_small in Hwr by lia.
  rewrite Hwr. apply Z.eqb_refl.
Qed.

Lemma length_snoc_Z {A : Type} (l : list A) (x : A) :
  Z.of_nat (length (l ++ [x])) = Z.of_nat (length l) + 1.
Proof. rewrite length_app. simpl. lia. Qed.

Lemma fifo_step (o : op World) (s s' : system) :
  step o s = Some s' -> fifo_inv s -> fifo_inv s'.
Proof.
  intros Hstep (pending & Hrepr & Hhist & Hpub & Hproc).
  destruct o as [topic d| |topic cb|ms| |]; simpl in Hstep.
  - (* publish *)
    unfold publish in Hstep.
    assert (Hlen : Z.of_nat (length pending) < SIZE) by apply Hrepr.
    destruct (Z.eq_dec (Z.of_nat (length pending)) (SIZE - 1)) as [Hfull|Hroom].
    + rewrite (repr_write_full SIZE SIZE_pos SIZE_pow2 SIZE_fits _ _ pending Hrepr Hfull)
        in Hstep.
      injection Hstep as <-. exists pending. simpl. auto.
    + destruct (repr_write_ok SIZE SIZE_pos SIZE_pow2 SIZE_fits
                  (make_wrapper d (wrap_u64 (sequence_ (bus s) + 1)))
                  _ pending Hrepr ltac:(lia)) as (rb & Hwrite & Hrb).
      rewrite Hwrite in Hstep. injection Hstep as <-.
      eexists. simpl. split; [exact Hrb|]. split; [|split].
      * rewrite Hhist, <- app_assoc. reflexivity.
      * rewrite Hpub, length_snoc_Z. apply wrap_u64_succ.
      * exact Hproc.
  - (* one pass of the consumer loop *)
    destruct pending as [|x pending].
    + rewrite (repr_read_nil SIZE _ _ Hrepr) in Hstep.
      rewrite (process_one_empty _ _ (repr_is_empty _ Hrepr)) in Hstep.
      injection Hstep as <-. exists []. simpl. auto.
    + destruct (process_one_head (bus s) (world s) x pending Hrepr)
        as (rb & Hread & Hrb & Hone).
      rewrite Hread, Hone in Hstep.
      destruct (notify _ 0 (unwrap x) (world s)) as [[w1 evs1] [|]]; [|discriminate].
      injection Hstep as <-. exists pending. simpl. split; [exact Hrb|]. split; [|split].
      * rewrite Hhist, <- app_assoc. reflexivity.
      * exact Hpub.
      * rewrite Hproc, length_snoc_Z. apply wrap_u64_succ.
  - injection Hstep as <-. exists pending. simpl. auto.
  - injection Hstep as <-. exists pending. simpl. auto.
  - injection Hstep as <-. exists pending. auto.
  - injection Hstep as <-. exists pending. auto.
Qed.

Lemma fifo_exec (ops : list (op World)) (s s' : system) :
  exec ops s = Some s' -> fifo_inv s -> fifo_inv s'.
Proof.
  revert s. induction ops as [|o ops IH]; intros s; simpl.
  - intros [= <-]. trivial.
  - destruct (step o s) as [s1|] eqn:Hstep; [|discriminate].
    intros Hexec Hinv. apply (IH s1 Hexec). apply (fifo_step o s s1 Hstep Hinv).
Qed.

Lemma exec_app (ops1 ops2 : list (op World)) (s : system) :
  exec (ops1 ++ ops2) s =
    match exec ops1 s with Some s1 => exec ops2 s1 | None => None end.
Proof.
  revert s. induction ops1 as [|o ops1 IH]; intros s; simpl; [reflexivity|].
  destruct (step o s); [apply IH | reflexivity].
Qed.

(** *** Sequence numbers *)

Lemma wseq_make_wrapper (d : MarketData) (n : Z) : wseq (make_wrapper d n) = n.
Proof. reflexivity. Qed.

Lemma step_sequence (o : op World) (s s' : system) :
  step o s = Some s' ->
  match o with
  | OpPublish _ d =>
      sequence_ (bus s') = wrap_u64 (sequence_ (bus s) + 1) /\
      (enqueued s' = enqueued s \/
       enqueued s' = enqueued s ++ [make_wrapper d (wrap_u64 (sequence_ (bus s) + 1))])
  | _ => sequence_ (bus s') = sequence_ (bus s) /\ enqueued s' = enqueued s
  end.
Proof.
  destruct o as [topic d| |topic cb|ms| |]; simpl.
  - unfold publish.
    destruct (RingBuffer.write SIZE _ (ring_buffer_ (bus s))) as [rb [|]];
      intros [= <-]; simpl; auto.
  - destruct (RingBuffer.read SIZE empty_wrapper _) as [[rb x] ok].
    destruct (process_one (bus s) (world s)) as [b1 w1 evs1|] eqn:Hone; [|discriminate].
    intros [= <-]. simpl. split; [|reflexivity].
    apply (process_one_frame _ _ _ _ _ Hone).
  - intros [= <-]. split; reflexivity.
  - intros [= <-]. split; reflexivity.
  - intros [= <-]. split; reflexivity.
  - intros [= <-]. split; reflexivity.
Qed.

Lemma exec_sequence (ops : list (op World)) (s s' : system) :
  exec ops s = Some s' ->
  0 <= sequence_ (bus s) ->
  sequence_ (bus s) + Z.of_nat (publish_calls ops) < 2 ^ 64 ->
  sequence_ (bus s') = sequence_ (bus s) + Z.of_nat (publish_calls ops) /\
  exists new,
    enqueued s' = enqueued s ++ new /\
    (length new <= publish_calls ops)%nat /\
    StronglySorted Z.lt (map wseq new) /\
    Forall (fun m => sequence_ (bus s) < wseq m <= sequence_ (bus s')) new.
Proof.
  revert s. induction ops as [|o ops IH]; intros s; simpl.
  - intros [= <-] _ _. split; [lia|]. exists []. rewrite app_nil_r.
    simpl. repeat split; [lia | constructor | constructor].
  - destruct (step o s) as [s1|] eqn:Hstep; [|discriminate].
    intros Hexec H0 Hbound.
    pose proof (step_sequence o s s1 Hstep) as Hs.
    destruct o as [topic d| |topic cb|ms| |];
      try (destruct Hs as [Hseq Henq];
           destruct (IH s1 Hexec) as (Hfin & new & Hnew & Hlen & Hsort & Hrange);
           [lia | lia |]; rewrite Hseq in *; split; [exact Hfin|];
           exists new; rewrite Hnew, Henq; repeat split; assumption).
    destruct Hs as [Hseq Henq].
    rewrite wrap_u64_small in Hseq, Henq by lia.
    destruct (IH s1 Hexec) as (Hfin & new & Hnew & Hlen & Hsort & Hrange); [lia | lia |].
    rewrite Hseq in *. split; [lia|].
    destruct Henq as [Henq|Henq]; rewrite Hnew, Henq.
    + exists new. repeat split; [lia | exact Hsort |].
      eapply List.Forall_impl; [|exact Hrange]. simpl. intros m Hm. lia.
    + exists (make_wrapper d (sequence_ (bus s) + 1) :: new).
      rewrite <- app_assoc. repeat split.
      * simpl. lia.
      * simpl. constructor; [exact Hsort|].
        rewrite List.Forall_map. eapply List.Forall_impl; [|exact Hrange].
        simpl. intros m Hm. rewrite wseq_make_wrapper. lia.
      * constructor.
        -- unfold wseq. simpl. lia.
        -- eapply List.Forall_impl; [|exact Hrange]. simpl. intros m Hm. lia.
Qed.

Lemma sorted_lt_NoDup (l : list Z) : StronglySorted Z.lt l -> NoDup l.
Proof.
  induction 1 as [|x l _ IH Hall]; constructor; [|exact IH].
  intros Hin. rewrite List.Forall_forall in Hall.
  apply list_elem_of_In in Hin. specialize (Hall x Hin). lia.
Qed.

(** *** Draining the ring *)

Lemma step_iterate (s s' : system) (pending : list MessageWrapper) :
  RingBuffer.repr SIZE (ring_buffer_ (bus s)) pending ->
  step OpIterate s = Some s' ->
  enqueued s' = enqueued s /\
  dequeued s' = dequeued s ++ firstn 1 pending /\
  RingBuffer.repr SIZE (ring_buffer_ (bus s')) (skipn 1 pending).
Proof.
  intros Hrepr Hstep. simpl in Hstep.
  destruct pending as [|x pending].
  - rewrite (repr_read_nil SIZE _ _ Hrepr) in Hstep.
    rewrite (process_one_empty _ _ (repr_is_empty _ Hrepr)) in Hstep.
    injection Hstep as <-. simpl. rewrite app_nil_r. auto.
  - destruct (process_one_head (bus s) (world s) x pending Hrepr)
      as (rb & Hread & Hrb & Hone).
    rewrite Hread, Hone in Hstep.
    destruct (notify _ 0 (unwrap x) (world s)) as [[w1 evs1] [|]]; [|discriminate].
    injection Hstep as <-. simpl. auto.
Qed.

Lemma exec_drain (k : nat) (s s' : system) (pending : list MessageWrapper) :
  RingBuffer.repr SIZE (ring_buffer_ (bus s)) pending ->
  (length pending <= k)%nat ->
  exec (repeat OpIterate k) s = Some s' ->
  enqueued s' = enqueued s /\
  dequeued s' = dequeued s ++ pending /\
  RingBuffer.repr SIZE (ring_buffer_ (bus s')) [].
Proof.
  revert s pending. induction k as [|k IH]; intros s pending Hrepr Hlen.
  - simpl. intros [= <-]. destruct pending; [|simpl in Hlen; lia].
    rewrite app_nil_r. auto.
  - cbn [repeat exec].
    destruct (step OpIterate s) as [s1|] eqn:Hstep; [|discriminate].
    intros Hexec.
    destruct (step_iterate s s1 pending Hrepr Hstep) as (Henq & Hdeq & Hrepr1).
    destruct (IH s1 (skipn 1 pending) Hrepr1) with (2 := Hexec)
      as (Henq' & Hdeq' & Hrepr').
    { rewrite length_skipn. lia. }
    rewrite Henq', Hdeq', Hdeq, Henq, <- app_assoc.
    replace (firstn 1 pending ++ skipn 1 pending) with pending
      by (symmetry; apply firstn_skipn).
    auto.
Qed.

Lemma process_one_subscribers (b b' : bus_t) (w w' : World) (evs : list event) :
  process_one b w = Completed b' w' evs -> subscribers_ b' = subscribers_ b.
Proof. intros H. apply (process_one_frame _ _ _ _ _ H). Qed.

Lemma step_iterate_total (s : system) (pending : list MessageWrapper) :
  RingBuffer.repr SIZE (ring_buffer_ (bus s)) pending ->
  Forall throws_only_std (default [] (subscribers_ (bus s) !! "market_data")) ->
  exists s1,
    step OpIterate s = Some s1 /\
    subscribers_ (bus s1) = subscribers_ (bus s) /\
    RingBuffer.repr SIZE (ring_buffer_ (bus s1)) (skipn 1 pending).
Proof.
  intros Hrepr Hstd. destruct pending as [|x pending].
  - simpl. rewrite (repr_read_nil SIZE _ _ Hrepr).
    rewrite (process_one_empty _ _ (repr_is_empty _ Hrepr)).
    eexists. split; [reflexivity|]. simpl. auto.
  - destruct (process_one_head (bus s) (world s) x pending Hrepr)
      as (rb & Hread & Hrb & Hone).
    destruct (notify_std _ 0 (unwrap x) (world s) Hstd) as (evs & Hnotify & _).
    simpl. rewrite Hread, Hone, Hnotify.
    eexists. split; [reflexivity|]. simpl. auto.
Qed.

Lemma exec_iterate_total (k : nat) (s : system) (pending : list MessageWrapper) :
  RingBuffer.repr SIZE (ring_buffer_ (bus s)) pending ->
  Forall throws_only_std (default [] (subscribers_ (bus s) !! "market_data")) ->
  exists s', exec (repeat OpIterate k) s = Some s'.
Proof.
  revert s pending. induction k as [|k IH]; intros s pending Hrepr Hstd.
  - exists s. reflexivity.
  - destruct (step_iterate_total s pending Hrepr Hstd) as (s1 & Hstep & Hsub & Hr1).
    cbn [repeat exec]. rewrite Hstep. apply (IH s1 _ Hr1). rewrite Hsub. exact Hstd.
Qed.

(** C1. On one bus, from its construction, through any interleaving of
    [publish] calls and passes of the consumer loop (fewer than [2^64]
    [publish] calls): the envelopes read so far, followed by those waiting
    in the ring in slot order, are the envelopes published so far, in
    publish order; sequence numbers increase strictly from one read to the
    next, so no envelope is read twice; and once the consumer has made as
    many further passes as the ring holds envelopes, the envelopes read are
    exactly the envelopes published.  Those passes do complete when the
    subscribers' faults are [std::exception]s. *)
Theorem published_ticks_read_once_in_order
        (w0 : World) (ops : list (op World)) (s : system) :
  Z.of_nat (publish_calls ops) < 2 ^ 64 ->
  exec ops (start w0) = Some s ->
  (exists pending,
     RingBuffer.repr SIZE (ring_buffer_ (bus s)) pending /\
     enqueued s = dequeued s ++ pending) /\
  StronglySorted Z.lt (map wseq (dequeued s)) /\
  NoDup (map wseq (dequeued s)) /\
  (forall (k : nat) (s' : system),
     get_size (bus s) <= Z.of_nat k ->
     exec (repeat OpIterate k) s = Some s' ->
     dequeued s' = enqueued s /\
     enqueued s' = enqueued s /\
     is_empty (bus s') = true) /\
  (Forall throws_only_std (default [] (subscribers_ (bus s) !! "market_data")) ->
   forall k : nat, exists s', exec (repeat OpIterate k) s = Some s').
Proof.
  intros Hbound Hexec.
  destruct (fifo_exec ops _ s Hexec (fifo_start w0))
    as (pending & Hrepr & Hhist & _ & _).
  destruct (exec_sequence ops _ s Hexec) as (_ & new & Hnew & _ & Hsort & _);
    [simpl; lia | simpl; lia |].
  simpl in Hnew. subst new.
  assert (Hdeq : StronglySorted Z.lt (map wseq (dequeued s))).
  { rewrite Hhist, map_app in Hsort. eapply StronglySorted_app_1_l, Hsort. }
  split; [exists pending; auto|].
  split; [exact Hdeq|].
  split; [apply sorted_lt_NoDup, Hdeq|].
  split; [|intros Hstd k; apply (exec_iterate_total k s pending Hrepr Hstd)].
  intros k s' Hk Hdrain.
  unfold get_size in Hk.
  rewrite (repr_size SIZE SIZE_pos SIZE_pow2 SIZE_fits _ pending Hrepr) in Hk.
  destruct (exec_drain k s s' pending Hrepr ltac:(lia) Hdrain)
    as (Henq & Hdeq' & Hempty).
  rewrite Hdeq', Henq, Hhist. repeat split.
  apply repr_is_empty, Hempty.
Qed.

(** C2. From the construction of the bus, after any sequence of [publish]
    calls, passes of the consumer loop, [subscribe] calls and uses of the
    delay and counter accessors, [processed_count + size() ==
    published_count] holds, in 64-bit unsigned arithmetic always and as an
    equation between integers as long as fewer than [2^64] calls of
    [publish] were made; each further call preserves it. *)
Theorem processed_plus_size_is_published
        (w0 : World) (ops : list (op World)) (s : system) :
  exec ops (start w0) = Some s ->
  wrap_u64 (get_processed_count (bus s) + get_size (bus s))
    = get_published_count (bus s) /\
  (Z.of_nat (publish_calls ops) < 2 ^ 64 ->
   get_processed_count (bus s) + get_size (bus s) = get_published_count (bus s)) /\
  (forall (o : op World) (s' : system),
     step o s = Some s' ->
     wrap_u64 (get_processed_count (bus s') + get_size (bus s'))
       = get_published_count (bus s')).
Proof.
  assert (Hinv : forall s1 : system, fifo_inv s1 ->
            wrap_u64 (get_processed_count (bus s1) + get_size (bus s1))
              = get_published_count (bus s1)).
  { intros s1 (pending & Hrepr & Hhist & Hpub & Hproc).
    unfold get_processed_count, get_published_count, get_size.
    rewrite (repr_size SIZE SIZE_pos SIZE_pow2 SIZE_fits _ pending Hrepr).
    rewrite Hpub, Hproc, wrap_u64_add_l, Hhist, length_app. f_equal. lia. }
  intros Hexec.
  pose proof (fifo_exec ops _ s Hexec (fifo_start w0)) as Hfifo.
  split; [apply Hinv, Hfifo|]. split.
  - intros Hbound.
    destruct Hfifo as (pending & Hrepr & Hhist & Hpub & Hproc).
    destruct (exec_sequence ops _ s Hexec) as (_ & new & Hnew & Hlen & _ & _);
      [simpl; lia | simpl; lia |].
    simpl in Hnew. subst new.
    unfold get_processed_count, get_published_count, get_size.
    rewrite (repr_size SIZE SIZE_pos SIZE_pow2 SIZE_fits _ pending Hrepr).
    rewrite Hpub, Hproc.
    assert (Hl : length (enqueued s) = (length (dequeued s) + length pending)%nat)
      by (rewrite Hhist; apply length_app).
    rewrite !wrap_u64_small by lia. lia.
  - intros o s' Hstep. apply Hinv. apply (fifo_step o s s' Hstep Hfifo).
Qed.

(** C3. [publish] gives the envelope the next value of the bus-wide
    sequence counter, which starts at 0 on construction (so the first
    envelope carries 1) and does not depend on the topic, and attempts one
    write.  When the ring is not full the envelope is stored at the write
    position, the published counter goes up by one and the call returns
    [true]; when it is full the ring is untouched, the dropped counter goes
    up by one and the call returns [false].  [publish] is a total function:
    it always returns. *)
Theorem publish_sequence_and_counters
        (topic : string) (d : MarketData) (b : bus_t) :
  RingBuffer.reachable SIZE (ring_buffer_ b) ->
  sequence_ (@create World) = 0 /\
  exists (b' : bus_t) (ok : bool) (evs : list event),
    publish topic d b = (b', ok, evs) /\
    sequence_ b' = wrap_u64 (sequence_ b + 1) /\
    (0 <= sequence_ b < 2 ^ 64 - 1 -> sequence_ b' = sequence_ b + 1) /\
    (is_full b = false ->
     ok = true /\
     RingBuffer.buffer_ (ring_buffer_ b') !! get_write_index b
       = Some (make_wrapper d (sequence_ b')) /\
     wseq (make_wrapper d (sequence_ b')) = sequence_ b' /\
     get_published_count b' = wrap_u64 (get_published_count b + 1) /\
     get_dropped_count b' = get_dropped_count b) /\
    (is_full b = true ->
     ok = false /\
     ring_buffer_ b' = ring_buffer_ b /\
     get_dropped_count b' = wrap_u64 (get_dropped_count b + 1) /\
     get_published_count b' = get_published_count b).
Proof.
  intros Hreach. split; [reflexivity|].
  destruct (reachable_repr SIZE SIZE_pos SIZE_pow2 SIZE_fits _ Hreach) as [l Hl].
  pose proof (repr_is_full SIZE SIZE_pos SIZE_pow2 SIZE_fits _ l Hl) as Hfull.
  assert (Hlen : Z.of_nat (length l) < SIZE) by apply Hl.
  unfold publish, is_full.
  destruct (Z.eq_dec (Z.of_nat (length l)) (SIZE - 1)) as [Heq|Hne].
  - rewrite (repr_write_full SIZE SIZE_pos SIZE_pow2 SIZE_fits _ _ l Hl Heq).
    do 3 eexists. split; [reflexivity|]. simpl.
    split; [reflexivity|]. split; [intros Hs; apply wrap_u64_small; lia|].
    split.
    + intros Hnf. apply Hfull in Heq. congruence.
    + intros _. repeat split.
  - destruct (repr_write_ok SIZE SIZE_pos SIZE_pow2 SIZE_fits
                (make_wrapper d (wrap_u64 (sequence_ b + 1))) _ l Hl ltac:(lia))
      as (rb & Hwrite & Hrb).
    rewrite Hwrite.
    do 3 eexists. split; [reflexivity|]. simpl.
    split; [reflexivity|]. split; [intros Hs; apply wrap_u64_small; lia|].
    split.
    + intros _. repeat split.
      unfold RingBuffer.write in Hwrite.
      destruct (_ =? _); [discriminate|].
      injection Hwrite as <-. simpl. apply lookup_insert_eq.
    + intros Hf. apply Hfull in Hf. contradiction.
Qed.

(** *** Publishing into an empty ring, then one pass *)

Lemma step_publish_room (s : system) (topic : string) (d : MarketData)
      (pending : list MessageWrapper) :
  RingBuffer.repr SIZE (ring_buffer_ (bus s)) pending ->
  Z.of_nat (length pending) < SIZE - 1 ->
  exists s1,
    step (OpPublish topic d) s = Some s1 /\
    RingBuffer.repr SIZE (ring_buffer_ (bus s1))
      (pending ++ [make_wrapper d (wrap_u64 (sequence_ (bus s) + 1))]) /\
    subscribers_ (bus s1) = subscribers_ (bus s) /\
    processed_count_ (bus s1) = processed_count_ (bus s).
Proof.
  intros Hrepr Hroom.
  destruct (repr_write_ok SIZE SIZE_pos SIZE_pow2 SIZE_fits
              (make_wrapper d (wrap_u64 (sequence_ (bus s) + 1))) _ pending Hrepr Hroom)
    as (rb & Hwrite & Hrb).
  simpl. unfold publish. rewrite Hwrite.
  eexists. split; [reflexivity|]. simpl. auto.
Qed.

Lemma step_iterate_std (s : system) (x : MessageWrapper) (l : list MessageWrapper) :
  RingBuffer.repr SIZE (ring_buffer_ (bus s)) (x :: l) ->
  Forall throws_only_std (default [] (subscribers_ (bus s) !! "market_data")) ->
  exists s1,
    step OpIterate s = Some s1 /\
    RingBuffer.repr SIZE (ring_buffer_ (bus s1)) l /\
    subscribers_ (bus s1) = subscribers_ (bus s) /\
    processed_count_ (bus s1) = wrap_u64 (processed_count_ (bus s) + 1).
Proof.
  intros Hrepr Hstd.
  destruct (process_one_head (bus s) (world s) x l Hrepr) as (rb & Hread & Hrb & Hone).
  destruct (notify_std _ 0 (unwrap x) (world s) Hstd) as (evs & Hnotify & _).
  simpl. rewrite Hread, Hone, Hnotify.
  eexists. split; [reflexivity|]. simpl. auto.
Qed.

Lemma publish_then_iterate (s : system) (topic : string) (d : MarketData) :
  RingBuffer.repr SIZE (ring_buffer_ (bus s)) [] ->
  Forall throws_only_std (default [] (subscribers_ (bus s) !! "market_data")) ->
  exists s',
    exec [OpPublish topic d; OpIterate] s = Some s' /\
    RingBuffer.repr SIZE (ring_buffer_ (bus s')) [] /\
    subscribers_ (bus s') = subscribers_ (bus s) /\
    processed_count_ (bus s') = wrap_u64 (processed_count_ (bus s) + 1).
Proof.
  intros Hempty Hstd.
  destruct (step_publish_room s topic d [] Hempty) as (s1 & Hs1 & Hr1 & Hsub1 & Hp1);
    [reflexivity|].
  rewrite <- Hsub1 in Hstd.
  destruct (step_iterate_std s1 _ [] Hr1 Hstd) as (s2 & Hs2 & Hr2 & Hsub2 & Hp2).
  exists s2. cbn [exec]. rewrite Hs1, Hs2.
  split; [reflexivity|]. split; [exact Hr2|]. split; congruence.
Qed.

Lemma always_faults_std (cb : callback) : always_faults cb -> throws_only_std cb.
Proof. intros H d w. destruct (H d w) as [what ->]. discriminate. Qed.

Lemma scenario_faulting_callback (cb : callback) (d1 d2 : MarketData) (w0 : World) :
  always_faults cb ->
  exists s,
    exec [OpSubscribe "market_data" cb;
          OpPublish "market_data" d1; OpIterate;
          OpPublish "market_data" d2; OpIterate] (start w0) = Some s /\
    get_processed_count (bus s) = 2.
Proof.
  intros Hcb.
  set (s1 := {| bus := subscribe "market_data" cb create; world := w0;
                enqueued := []; dequeued := [] |} : system).
  assert (Hsub : default [] (subscribers_ (bus s1) !! "market_data") = [cb]).
  { simpl. rewrite lookup_insert_eq, lookup_empty. reflexivity. }
  assert (Hstd : Forall throws_only_std [cb]).
  { constructor; [apply always_faults_std, Hcb | constructor]. }
  destruct (publish_then_iterate s1 "market_data" d1) as (s2 & He2 & Hr2 & Hs2 & Hp2).
  { apply repr_init. exact SIZE_pos. }
  { rewrite Hsub. exact Hstd. }
  destruct (publish_then_iterate s2 "market_data" d2 Hr2) as (s3 & He3 & _ & _ & Hp3).
  { rewrite Hs2, Hsub. exact Hstd. }
  exists s3. split.
  - change (exec ([OpSubscribe "market_data" cb]
                    ++ [OpPublish "market_data" d1; OpIterate]
                    ++ [OpPublish "market_data" d2; OpIterate]) (start w0) = Some s3).
    rewrite exec_app. change (exec [OpSubscribe "market_data" cb] (start w0)) with (Some s1).
    cbv beta iota. rewrite exec_app, He2. exact He3.
  - unfold get_processed_count. rewrite Hp3, Hp2. reflexivity.
Qed.

(** C6 (amended). During a pass of the consumer loop that dequeues an
    envelope, when the faults the "market_data" callbacks raise are all
    derived from [std::exception]: every such callback is called exactly
    once, in subscription order, with the dequeued tick; a fault is caught
    at the call and the callbacks after it are still called; the processed
    counter is incremented and the end of the loop body is reached.  With a
    callback that raises a [std::exception] on every call, publishing two
    ticks with one pass after each brings the processed counter to 2. *)
Theorem std_faults_contained
        (b : bus_t) (w : World) (x : MessageWrapper) (l : list MessageWrapper) :
  RingBuffer.repr SIZE (ring_buffer_ b) (x :: l) ->
  Forall throws_only_std (default [] (subscribers_ b !! "market_data")) ->
  (exists (b' : bus_t) (evs : list event),
     process_one b w
       = Completed b' (deliver (default [] (subscribers_ b !! "market_data"))
                         (unwrap x) w) evs /\
     invoked evs
       = map (fun i => (i, unwrap x))
           (List.seq 0 (length (default [] (subscribers_ b !! "market_data")))) /\
     get_processed_count b' = wrap_u64 (get_processed_count b + 1) /\
     RingBuffer.repr SIZE (ring_buffer_ b') l) /\
  faults_contained b w /\
  (forall (cb : callback) (d1 d2 : MarketData) (w0 : World),
     always_faults cb ->
     exists s,
       exec [OpSubscribe "market_data" cb;
             OpPublish "market_data" d1; OpIterate;
             OpPublish "market_data" d2; OpIterate] (start w0) = Some s /\
       get_processed_count (bus s) = 2).
Proof.
  intros Hrepr Hstd.
  destruct (process_one_head b w x l Hrepr) as (rb & Hread & Hrb & Hone).
  destruct (notify_std _ 0 (unwrap x) w Hstd) as (evs & Hnotify & Hinv).
  rewrite Hnotify in Hone.
  split; [|split].
  - do 2 eexists. split; [exact Hone|].
    split; [|split; [reflexivity | exact Hrb]].
    unfold invoked in *. rewrite flat_map_app, Hinv.
    unfold delay_sleep. destruct (0 <? _); simpl; apply app_nil_r.
  - do 3 eexists. split; [exact Hone|]. split; [|reflexivity].
    unfold invoked in *. rewrite flat_map_app, Hinv.
    replace (flat_map _ (delay_sleep b)) with (@nil (nat * MarketData))
      by (unfold delay_sleep; destruct (0 <? _); reflexivity).
    rewrite app_nil_r, map_map. simpl. apply map_id.
  - apply scenario_faulting_callback.
Qed.

(** C7 (amended). In [process_messages] the processing-delay sleep is made
    once per pass of the loop, after an item was processed or the ring was
    found empty alike, whenever the delay is positive: a pass that finds the
    ring empty changes nothing, sleeps for the delay when it is positive,
    makes no sleep only when the delay is 0, and then the run flag is
    tested again. *)
Theorem delay_applies_to_every_pass (b : bus_t) (w : World) :
  (is_empty b = true ->
   process_one b w
     = Completed b w
         (if 0 <? get_processing_delay_ms b
          then [EvSleep (get_processing_delay_ms b)] else [])) /\
  (is_empty b = true -> get_processing_delay_ms b = 0 ->
   process_one b w = Completed b w []) /\
  (forall (b' : bus_t) (w' : World) (evs : list event),
     process_one b w = Completed b' w' evs ->
     sleeps evs
       = if 0 <? get_processing_delay_ms b then [get_processing_delay_ms b] else []) /\
  (forall n : nat,
     is_empty b = true ->
     process_messages (S n) b w
       = (fst (process_messages n b w),
          delay_sleep b ++ snd (process_messages n b w))).
Proof.
  split; [|split; [|split]].
  - intros Hempty. apply process_one_empty. exact Hempty.
  - intros Hempty Hzero. rewrite (process_one_empty b w Hempty).
    unfold delay_sleep. unfold get_processing_delay_ms in Hzero. rewrite Hzero.
    reflexivity.
  - intros b' w' evs. unfold process_one.
    destruct (RingBuffer.read SIZE empty_wrapper (ring_buffer_ b)) as [[rb x] [|]].
    + destruct (type x).
      pose proof (notify_no_sleep
                    (default [] (subscribers_ (with_ring rb b) !! "market_data"))
                    0 (unwrap x) w) as Hns.
      destruct (notify _ 0 (unwrap x) w) as [[w1 evs1] [|]]; [|discriminate].
      intros [= _ _ <-]. simpl in Hns.
      unfold sleeps in *. rewrite flat_map_app, Hns.
      unfold delay_sleep, get_processing_delay_ms. simpl.
      destruct (0 <? _); reflexivity.
    + intros [= _ _ <-]. unfold delay_sleep, get_processing_delay_ms.
      destruct (0 <? _); reflexivity.
  - intros n Hempty. cbn [process_messages].
    rewrite (process_one_empty b w Hempty).
    destruct (process_messages n b w) as [r evs]. reflexivity.
Qed.

End BusFacts.

Lemma std_faults_contained_witness :
  MessageBus.faults_contained
    (fst (fst (MessageBus.publish "market_data" (sample_tick 0)
                 (MessageBus.subscribe "market_data" faulting MessageBus.create))))
    0%nat /\
  exists s,
    MessageBus.exec [MessageBus.OpSubscribe "market_data" faulting;
                     MessageBus.OpPublish "market_data" (sample_tick 0);
                     MessageBus.OpIterate;
                     MessageBus.OpPublish "market_data" (sample_tick 1);
                     MessageBus.OpIterate] (MessageBus.start 0%nat) = Some s /\
    MessageBus.get_processed_count (MessageBus.bus s) = 2.
Proof.
  destruct (std_faults_contained
              (fst (fst (MessageBus.publish "market_data" (sample_tick 0)
                           (MessageBus.subscribe "market_data" faulting
                              MessageBus.create))))
              0%nat (MessageBus.make_wrapper (sample_tick 0) 1) [])
    as (_ & Hcontained & Hscenario).
  - destruct (repr_write_ok MessageBus.DEFAULT_RING_BUFFER_SIZE SIZE_pos SIZE_pow2
                SIZE_fits (MessageBus.make_wrapper (sample_tick 0) 1) RingBuffer.init []
                (repr_init _ SIZE_pos) eq_refl) as (rb & Hwrite & Hrb).
    replace rb
      with (fst (RingBuffer.write MessageBus.DEFAULT_RING_BUFFER_SIZE
                   (MessageBus.make_wrapper (sample_tick 0) 1) RingBuffer.init)) in Hrb
      by (rewrite Hwrite; reflexivity).
    exact Hrb.
  - vm_compute. repeat constructor; intros d w; discriminate.
  - split; [exact Hcontained|].
    apply (Hscenario faulting (sample_tick 0) (sample_tick 1) 0%nat).
    intros d w. exists "Test exception". reflexivity.
Defined.

(** C6, as stated, fails when a callback throws an object that is not a
    [std::exception]: on [escaping_bus] (first subscriber [throw 42], second
    subscriber counting, one tick in the ring) the thrown object passes both
    handlers; the second callback is not called, the processed counter
    stays at 0 and [process_messages] is left.  With such a callback the
    two-tick scenario ends in the termination of the process. *)
Lemma callback_fault_not_contained :
  MessageBus.is_empty escaping_bus = false /\
  ~ MessageBus.faults_contained escaping_bus 0%nat /\
  (exists b evs,
     MessageBus.process_one escaping_bus 0%nat = MessageBus.Escaped b 0%nat evs /\
     map fst (invoked evs) = [0%nat] /\
     MessageBus.get_processed_count b = 0) /\
  MessageBus.exec [MessageBus.OpSubscribe "market_data" throwing_int;
                   MessageBus.OpPublish "market_data" (sample_tick 0);
                   MessageBus.OpIterate;
                   MessageBus.OpPublish "market_data" (sample_tick 1);
                   MessageBus.OpIterate] (MessageBus.start 0%nat) = None.
Proof.
  split; [reflexivity|]. split; [|split].
  - intros (b' & w' & evs & Hone & _). vm_compute in Hone. discriminate.
  - do 2 eexists. split; [vm_compute; reflexivity|]. split; reflexivity.
  - vm_compute. reflexivity.
Qed.

(** C7, as stated, fails for every positive delay: on [delayed_bus] (delay
    5 ms, empty ring) the pass sleeps for 5 ms before the run flag is
    tested again. *)
Lemma empty_pass_sleeps :
  MessageBus.is_empty delayed_bus = true /\
  0 <= MessageBus.get_processing_delay_ms delayed_bus /\
  ~ MessageBus.no_sleep_when_empty delayed_bus 0%nat /\
  MessageBus.process_one delayed_bus 0%nat
    = MessageBus.Completed delayed_bus 0%nat [EvSleep 5].
Proof.
  split; [reflexivity|]. split; [vm_compute; discriminate|]. split.
  - intros (b' & w' & evs & Hone & Hsleep).
    vm_compute in Hone. injection Hone as _ _ <-. discriminate.
  - reflexivity.
Qed.

Lemma delay_applies_to_every_pass_witness :
  MessageBus.process_one delayed_bus 0%nat
    = MessageBus.Completed delayed_bus 0%nat [EvSleep 5] /\
  MessageBus.process_one (@MessageBus.create nat) 0%nat
    = MessageBus.Completed MessageBus.create 0%nat [].
Proof.
  split.
  - apply (proj1 (delay_applies_to_every_pass delayed_bus 0%nat)). reflexivity.
  - apply (proj1 (proj2 (delay_applies_to_every_pass MessageBus.create 0%nat)));
      reflexivity.
Defined.

(** ** Fixed-size string fields *)

Lemma c_str_nul_free (a : list byte) : Forall (fun c => c <> x00) (c_str a).
Proof.
  induction a as [|c a IH]; simpl; [constructor|].
  destruct (Byte.eqb c x00) eqn:Hc; constructor; [|exact IH].
  intros ->. discriminate.
Qed.

Lemma c_str_app_nul (l r : list byte) :
  Forall (fun c => c <> x00) l -> c_str (l ++ x00 :: r) = l.
Proof.
  induction 1 as [|c l Hc _ IH]; simpl; [reflexivity|].
  destruct (Byte.eqb c x00) eqn:Heq.
  - apply Byte.byte_dec_bl in Heq. contradiction.
  - rewrite IH. reflexivity.
Qed.

Lemma strncpy_spec (src : list byte) (n : nat) :
  strncpy src n
    = firstn n (c_str src) ++ repeat x00 (n - length (firstn n (c_str src))).
Proof.
  revert src. induction n as [|n IH]; intros src; [reflexivity|].
  destruct src as [|c src]; [reflexivity|]. simpl.
  destruct (Byte.eqb c x00); [reflexivity|].
  simpl. rewrite IH. reflexivity.
Qed.

Lemma copy_field_spec (n : nat) (src : list byte) :
  (0 < n)%nat ->
  copy_field n src
    = firstn (n - 1) (c_str src)
        ++ repeat x00 (n - length (firstn (n - 1) (c_str src))).
Proof.
  intros Hn. unfold copy_field. rewrite strncpy_spec, <- app_assoc. f_equal.
  pose proof (firstn_le_length (n - 1) (c_str src)) as Hle.
  replace (n - length (firstn (n - 1) (c_str src)))%nat
    with (n - 1 - length (firstn (n - 1) (c_str src)) + 1)%nat by lia.
  rewrite repeat_app. reflexivity.
Qed.

Lemma copy_field_c_str (n : nat) (src : list byte) :
  (0 < n)%nat -> c_str (copy_field n src) = firstn (n - 1) (c_str src).
Proof.
  intros Hn. rewrite copy_field_spec by exact Hn.
  pose proof (firstn_le_length (n - 1) (c_str src)) as Hle.
  destruct (n - length (firstn (n - 1) (c_str src)))%nat as [|k] eqn:Hk; [lia|].
  simpl. apply c_str_app_nul.
  apply Forall_take. apply c_str_nul_free.
Qed.

Lemma copy_field_length (n : nat) (src : list byte) :
  (0 < n)%nat -> length (copy_field n src) = n.
Proof.
  intros Hn. rewrite copy_field_spec by exact Hn.
  pose proof (firstn_le_length (n - 1) (c_str src)) as Hle.
  rewrite length_app, repeat_length. lia.
Qed.

Lemma copy_field_last (n : nat) (src : list byte) :
  (0 < n)%nat -> copy_field n src !! (n - 1)%nat = Some x00.
Proof.
  intros Hn. unfold copy_field.
  assert (Hlen : length (strncpy src (n - 1)) = (n - 1)%nat).
  { rewrite strncpy_spec, length_app, repeat_length.
    pose proof (firstn_le_length (n - 1) (c_str src)). lia. }
  rewrite lookup_app_r by lia. rewrite Hlen, Nat.sub_diag. reflexivity.
Qed.

Lemma copy_field_idem (n : nat) (src : list byte) :
  (0 < n)%nat -> copy_field n (copy_field n src) = copy_field n src.
Proof.
  intros Hn. rewrite (copy_field_spec n (copy_field n src)) by exact Hn.
  rewrite copy_field_c_str by exact Hn.
  rewrite firstn_firstn, Nat.min_id. symmetry. apply copy_field_spec, Hn.
Qed.

Lemma copy_field_fits (n : nat) (src : list byte) :
  (0 < n)%nat -> (length (c_str src) <= n - 1)%nat ->
  c_str (copy_field n src) = c_str src.
Proof.
  intros Hn Hfit. rewrite copy_field_c_str by exact Hn.
  apply firstn_all2. exact Hfit.
Qed.

(** C8. The [symbol] and [source] arrays of the envelope that [publish]
    builds, and of the tick handed to the subscribers, hold the input
    string cut to at most 15 (resp. 31) bytes, followed by NUL bytes up to
    the end of the 16 (resp. 32) byte array, so the last byte is NUL; an
    input string of at most 15 (resp. 31) bytes is stored as it is. *)
Theorem string_fields_truncated (d : MarketData) (s : Z) :
  let stored := data (@MessageBus.make_wrapper d s) in
  let delivered := @MessageBus.unwrap (@MessageBus.make_wrapper d s) in
  (symbol stored
     = firstn 15 (c_str (symbol d))
         ++ repeat x00 (16 - length (firstn 15 (c_str (symbol d)))) /\
   length (symbol stored) = 16%nat /\
   symbol stored !! 15%nat = Some x00 /\
   c_str (symbol stored) = firstn 15 (c_str (symbol d)) /\
   ((length (c_str (symbol d)) <= 15)%nat ->
    c_str (symbol stored) = c_str (symbol d)) /\
   symbol delivered = symbol stored) /\
  (source stored
     = firstn 31 (c_str (source d))
         ++ repeat x00 (32 - length (firstn 31 (c_str (source d)))) /\
   length (source stored) = 32%nat /\
   source stored !! 31%nat = Some x00 /\
   c_str (source stored) = firstn 31 (c_str (source d)) /\
   ((length (c_str (source d)) <= 31)%nat ->
    c_str (source stored) = c_str (source d)) /\
   source delivered = source stored).
Proof.
  simpl. unfold sizeof_symbol, sizeof_source. split.
  - split; [apply (copy_field_spec 16); lia|].
    split; [apply (copy_field_length 16); lia|].
    split; [apply (copy_field_last 16); lia|].
    split; [apply (copy_field_c_str 16); lia|].
    split; [apply (copy_field_fits 16); lia|].
    apply (copy_field_idem 16); lia.
  - split; [apply (copy_field_spec 32); lia|].
    split; [apply (copy_field_length 32); lia|].
    split; [apply (copy_field_last 32); lia|].
    split; [apply (copy_field_c_str 32); lia|].
    split; [apply (copy_field_fits 32); lia|].
    apply (copy_field_idem 32); lia.
Qed.

Lemma string_fields_truncated_witness :
  c_str (symbol (data (@MessageBus.make_wrapper (sample_tick 0) 1)))
    = String.list_byte_of_string "AAPL" /\
  c_str (source (data (@MessageBus.make_wrapper (sample_tick 0) 1)))
    = String.list_byte_of_string "HTTP_API".
Proof.
  split.
  - apply (proj1 (string_fields_truncated (sample_tick 0) 1)). vm_compute. lia.
  - apply (proj2 (string_fields_truncated (sample_tick 0) 1)). vm_compute. lia.
Defined.

(** ** Topics and sequence numbers *)

Section TopicsAndSequence.
Context {World : Type}.
Import MessageBus.

Abbreviation SIZE := DEFAULT_RING_BUFFER_SIZE.
Abbreviation bus_t := (MessageBus.t World).
Abbreviation callback := (MessageBus.callback World).
Abbreviation system := (MessageBus.system World).

Lemma step_publish_eq (s : system) (topic : string) (d : MarketData) :
  step (OpPublish topic d) s
    = Some {| bus := fst (fst (publish topic d (bus s)));
              world := world s;
              enqueued :=
                if snd (fst (publish topic d (bus s)))
                then enqueued s ++ [make_wrapper d (wrap_u64 (sequence_ (bus s) + 1))]
                else enqueued s;
              dequeued := dequeued s |}.
Proof.
  simpl. destruct (publish topic d (bus s)) as [[b' ok] evs]. reflexivity.
Qed.

Lemma publish_sequence (topic : string) (d : MarketData) (b : bus_t) :
  sequence_ (fst (fst (publish topic d b))) = wrap_u64 (sequence_ b + 1).
Proof.
  unfold publish.
  destruct (RingBuffer.write SIZE _ (ring_buffer_ b)) as [rb [|]]; reflexivity.
Qed.

(** *** The calls one pass makes *)

(** The callback loop calls the callbacks in subscription order, each on
    the state the one before left, until the list is done or a callback
    throws an object that is not a [std::exception]. *)
Lemma notify_calls (cbs : list callback) (i : nat) (d : MarketData) (w : World) :
  (exists evs,
     notify cbs i d w = (deliver cbs d w, evs, true) /\
     invoked evs = map (fun j => (j, d)) (List.seq i (length cbs))) \/
  (exists (k : nat) (cb : callback) (evs : list event),
     nth_error cbs k = Some cb /\
     snd (cb d (deliver (firstn k cbs) d w)) = ThrewOther /\
     notify cbs i d w = (fst (cb d (deliver (firstn k cbs) d w)), evs, false) /\
     invoked evs = map (fun j => (j, d)) (List.seq i (S k))).
Proof.
  revert i w. induction cbs as [|cb rest IH]; intros i w.
  - left. exists []. split; reflexivity.
  - cbn [notify]. unfold deliver. cbn [fold_left length List.seq map].
    destruct (cb d w) as [w' o] eqn:Hcb. cbn [fst].
    destruct o as [|what|].
    + destruct (IH (S i) w') as [(evs & Hn & Hinv)|(k & cb' & evs & Hk & Hthrow & Hn & Hinv)].
      * left. rewrite Hn. eexists. split; [reflexivity|].
        cbn [invoked flat_map app]. fold (invoked evs). rewrite Hinv. reflexivity.
      * right. exists (S k), cb'. rewrite Hn. eexists.
        cbn [nth_error firstn fold_left]. rewrite Hcb. cbn [fst].
        split; [exact Hk|]. split; [exact Hthrow|]. split; [reflexivity|].
        cbn [invoked flat_map app]. fold (invoked evs). rewrite Hinv. reflexivity.
    + destruct (IH (S i) w') as [(evs & Hn & Hinv)|(k & cb' & evs & Hk & Hthrow & Hn & Hinv)].
      * left. rewrite Hn. eexists. split; [reflexivity|].
        cbn [invoked flat_map app]. fold (invoked evs). rewrite Hinv. reflexivity.
      * right. exists (S k), cb'. rewrite Hn. eexists.
        cbn [nth_error firstn fold_left]. rewrite Hcb. cbn [fst].
        split; [exact Hk|]. split; [exact Hthrow|]. split; [reflexivity|].
        cbn [invoked flat_map app]. fold (invoked evs). rewrite Hinv. reflexivity.
    + right. exists O, cb. eexists. cbn [nth_error firstn fold_left].
      rewrite Hcb. cbn [fst snd].
      split; [reflexivity|]. split; [reflexivity|]. split; reflexivity.
Qed.

Lemma invoked_with_delay (evs : list event) (b : bus_t) :
  invoked (evs ++ delay_sleep b) = invoked evs.
Proof.
  unfold invoked. rewrite flat_map_app.
  unfold delay_sleep. destruct (0 <? _); simpl; apply app_nil_r.
Qed.

Lemma step_iterate_subscribers (s s' : system) :
  step OpIterate s = Some s' -> subscribers_ (bus s') = subscribers_ (bus s).
Proof.
  simpl. destruct (RingBuffer.read SIZE empty_wrapper _) as [[rb x] ok].
  destruct (process_one (bus s) (world s)) as [b1 w1 evs1|] eqn:Hone; [|discriminate].
  intros [= <-]. simpl. apply (process_one_subscribers _ _ _ _ _ Hone).
Qed.

(** [k] passes take the first [k] envelopes out of the ring. *)
Lemma exec_iterate_skipn (k : nat) (s s' : system) (pending : list MessageWrapper) :
  RingBuffer.repr SIZE (ring_buffer_ (bus s)) pending ->
  exec (repeat OpIterate k) s = Some s' ->
  RingBuffer.repr SIZE (ring_buffer_ (bus s')) (skipn k pending) /\
  dequeued s' = dequeued s ++ firstn k pending /\
  subscribers_ (bus s') = subscribers_ (bus s).
Proof.
  revert s pending. induction k as [|k IH]; intros s pending Hrepr.
  - simpl. intros [= <-]. rewrite app_nil_r. auto.
  - cbn [repeat exec].
    destruct (step OpIterate s) as [s1|] eqn:Hstep; [|discriminate].
    intros Hexec.
    destruct (step_iterate s s1 pending Hrepr Hstep) as (_ & Hdeq & Hrepr1).
    destruct (IH s1 _ Hrepr1 Hexec) as (Hr & Hd & Hsub).
    rewrite (step_iterate_subscribers s s1 Hstep) in Hsub.
    destruct pending as [|x pending].
    + simpl in *. rewrite app_nil_r in Hdeq. rewrite Hdeq in Hd.
      destruct k; simpl in *; auto.
    + simpl in *. rewrite Hdeq, <- app_assoc in Hd. auto.
Qed.

(** C9. The topic given to [publish] changes nothing: the result of
    [publish] (return value, counters, envelope, ring) and every later
    behaviour of the bus are those of a [publish] under "market_data".
    A pass of the consumer loop that dequeues a tick calls the callbacks
    subscribed under "market_data" with that tick, in subscription order,
    each on the state the one before left: all of them, unless one throws
    an object that is not a [std::exception], which ends the pass after
    that call.  So a tick published under any topic, once the envelopes
    before it have been consumed, goes to every "market_data" callback
    (callbacks throwing [std::exception]s only).  A callback subscribed
    under another topic is never called. *)
Theorem topic_is_ignored (topic : string) (d : MarketData) (b : bus_t) (w : World) :
  publish topic d b = publish "market_data" d b /\
  (forall (s : system) (ops : list (op World)),
     exec (OpPublish topic d :: ops) s = exec (OpPublish "market_data" d :: ops) s) /\
  (forall (x : MessageWrapper) (l : list MessageWrapper),
     RingBuffer.repr SIZE (ring_buffer_ b) (x :: l) ->
     let cbs := default [] (subscribers_ b !! "market_data") in
     exists (b' : bus_t) (evs : list event),
       RingBuffer.repr SIZE (ring_buffer_ b') l /\
       ((process_one b w = Completed b' (deliver cbs (unwrap x) w) evs /\
         invoked evs = map (fun i => (i, unwrap x)) (List.seq 0 (length cbs))) \/
        (exists (k : nat) (cb : callback),
           nth_error cbs k = Some cb /\
           snd (cb (unwrap x) (deliver (firstn k cbs) (unwrap x) w)) = ThrewOther /\
           process_one b w
             = Escaped b' (fst (cb (unwrap x) (deliver (firstn k cbs) (unwrap x) w)))
                 evs /\
           invoked evs = map (fun i => (i, unwrap x)) (List.seq 0 (S k))))) /\
  (forall (s : system) (l : list MessageWrapper),
     RingBuffer.repr SIZE (ring_buffer_ (bus s)) l ->
     Z.of_nat (length l) < SIZE - 1 ->
     Forall throws_only_std (default [] (subscribers_ (bus s) !! "market_data")) ->
     let e := make_wrapper d (wrap_u64 (sequence_ (bus s) + 1)) in
     let cbs := default [] (subscribers_ (bus s) !! "market_data") in
     exists (s1 : system) (b' : bus_t) (evs : list event),
       exec (OpPublish topic d :: repeat OpIterate (length l)) s = Some s1 /\
       dequeued s1 = dequeued s ++ l /\
       RingBuffer.repr SIZE (ring_buffer_ (bus s1)) [e] /\
       process_one (bus s1) (world s1)
         = Completed b' (deliver cbs (unwrap e) (world s1)) evs /\
       invoked evs = map (fun i => (i, unwrap e)) (List.seq 0 (length cbs))) /\
  (forall cb : callback,
     topic <> "market_data" ->
     match process_one b w, process_one (subscribe topic cb b) w with
     | Completed b1 w1 evs1, Completed b2 w2 evs2 =>
         b2 = subscribe topic cb b1 /\ w2 = w1 /\ evs2 = evs1
     | Escaped b1 w1 evs1, Escaped b2 w2 evs2 =>
         b2 = subscribe topic cb b1 /\ w2 = w1 /\ evs2 = evs1
     | _, _ => False
     end).
Proof.
  split; [reflexivity|]. split; [reflexivity|]. split; [|split].
  - intros x l Hrepr cbs.
    destruct (process_one_head b w x l Hrepr) as (rb & _ & Hrb & Hone).
    fold cbs in Hone.
    destruct (notify_calls cbs 0 (unwrap x) w)
      as [(evs & Hn & Hinv)|(k & cb & evs & Hk & Hthrow & Hn & Hinv)];
      rewrite Hn in Hone.
    + exists (count_processed (with_ring rb b)), (evs ++ delay_sleep b).
      split; [exact Hrb|]. left. split; [exact Hone|].
      rewrite invoked_with_delay. exact Hinv.
    + exists (with_ring rb b), evs.
      split; [exact Hrb|]. right. exists k, cb. auto.
  - intros s l Hrepr Hroom Hstd e cbs.
    destruct (step_publish_room s topic d l Hrepr Hroom) as (s0 & Hs0 & Hr0 & Hsub0 & _).
    fold e in Hr0.
    assert (Hstd0 : Forall throws_only_std
                      (default [] (subscribers_ (bus s0) !! "market_data")))
      by (rewrite Hsub0; exact Hstd).
    destruct (exec_iterate_total (length l) s0 _ Hr0 Hstd0) as (s1 & Hs1).
    destruct (exec_iterate_skipn (length l) s0 s1 _ Hr0 Hs1) as (Hr1 & Hd1 & Hsub1).
    rewrite skipn_app, skipn_all, Nat.sub_diag in Hr1. simpl in Hr1.
    rewrite firstn_app, firstn_all, Nat.sub_diag in Hd1. simpl in Hd1.
    rewrite app_nil_r in Hd1.
    assert (Hdeq0 : dequeued s0 = dequeued s).
    { rewrite step_publish_eq in Hs0. injection Hs0 as <-. reflexivity. }
    destruct (process_one_head (bus s1) (world s1) e [] Hr1) as (rb & _ & _ & Hone).
    rewrite Hsub1, Hsub0 in Hone. fold cbs in Hone.
    destruct (notify_std cbs 0 (unwrap e) (world s1) Hstd) as (evs & Hn & Hinv).
    rewrite Hn in Hone.
    exists s1. do 2 eexists.
    split; [cbn [exec]; rewrite Hs0; exact Hs1|].
    split; [rewrite Hd1, Hdeq0; reflexivity|].
    split; [exact Hr1|]. split; [exact Hone|].
    rewrite invoked_with_delay. exact Hinv.
  - intros cb Hne. unfold process_one. simpl.
    destruct (RingBuffer.read SIZE empty_wrapper (ring_buffer_ b)) as [[rb x] [|]].
    + destruct (type x). rewrite lookup_insert_ne by exact Hne.
      destruct (notify _ 0 (unwrap x) w) as [[w1 evs1] [|]]; repeat split.
    + repeat split.
Qed.

(** C10. Every [publish] advances the sequence counter by one, whether
    the write succeeds or not.  After [p] calls of [publish] on a new bus
    the counter is [p] and the next envelope gets [p + 1].  A [publish]
    dropped on a full ring uses up its number: [p + 1] is carried by no
    envelope ever enqueued, and the next [publish] assigns [p + 2]. *)
Theorem dropped_publish_consumes_sequence_number
        (w0 : World) (ops : list (op World)) (s : system)
        (topic : string) (d : MarketData) :
  exec ops (start w0) = Some s ->
  Z.of_nat (publish_calls ops) + 2 < 2 ^ 64 ->
  let p := Z.of_nat (publish_calls ops) in
  (forall (topic' : string) (d' : MarketData) (b : bus_t),
     sequence_ (fst (fst (publish topic' d' b))) = wrap_u64 (sequence_ b + 1)) /\
  sequence_ (bus s) = p /\
  sequence_ (fst (fst (publish topic d (bus s)))) = p + 1 /\
  (snd (fst (publish topic d (bus s))) = true ->
   exists s1,
     step (OpPublish topic d) s = Some s1 /\
     enqueued s1 = enqueued s ++ [make_wrapper d (p + 1)]) /\
  (snd (fst (publish topic d (bus s))) = false ->
   exists s1,
     step (OpPublish topic d) s = Some s1 /\
     enqueued s1 = enqueued s /\
     sequence_ (bus s1) = p + 1 /\
     (forall (topic' : string) (d' : MarketData),
        sequence_ (fst (fst (publish topic' d' (bus s1)))) = p + 2) /\
     (forall (ops' : list (op World)) (s2 : system),
        exec ops' s1 = Some s2 ->
        p + 1 + Z.of_nat (publish_calls ops') < 2 ^ 64 ->
        ~ In (p + 1) (map wseq (enqueued s2)))).
Proof.
  intros Hexec Hbound p.
  destruct (exec_sequence ops _ s Hexec) as (Hseq & new & Hnew & _ & _ & Hrange);
    [simpl; lia | simpl; lia |].
  simpl in Hseq, Hnew, Hrange. subst new. fold p in Hseq.
  assert (Hnext : sequence_ (fst (fst (publish topic d (bus s)))) = p + 1).
  { rewrite publish_sequence, Hseq. apply wrap_u64_small. lia. }
  split; [apply publish_sequence|]. split; [exact Hseq|]. split; [exact Hnext|].
  split.
  - intros Hok. eexists. split; [apply step_publish_eq|]. simpl.
    rewrite Hok, Hseq, wrap_u64_small by lia. reflexivity.
  - intros Hdrop. eexists. split; [apply step_publish_eq|]. simpl.
    rewrite Hdrop. split; [reflexivity|]. split; [exact Hnext|]. split.
    + intros topic' d'. rewrite publish_sequence, Hnext.
      rewrite wrap_u64_small by lia. lia.
    + intros ops' s2 Hexec' Hbound'.
      destruct (exec_sequence ops' _ s2 Hexec')
        as (_ & new & Hnew & _ & _ & Hrange'); simpl; [lia | lia |].
      simpl in Hnew, Hrange'. rewrite Hnew, map_app, in_app_iff.
      rewrite List.Forall_forall in Hrange, Hrange'.
      intros [Hin|Hin]; apply in_map_iff in Hin; destruct Hin as (m & Hm & Hin).
      * specialize (Hrange m Hin). lia.
      * specialize (Hrange' m Hin). lia.
Qed.

(** *** Filling the ring *)

Lemma exec_publish_room (topic : string) (d : MarketData) (n : nat)
      (s : system) (pending : list MessageWrapper) :
  RingBuffer.repr SIZE (ring_buffer_ (bus s)) pending ->
  Z.of_nat (length pending) + Z.of_nat n <= SIZE - 1 ->
  exists s' pending',
    exec (repeat (OpPublish topic d) n) s = Some s' /\
    RingBuffer.repr SIZE (ring_buffer_ (bus s')) pending' /\
    length pending' = (length pending + n)%nat.
Proof.
  revert s pending. induction n as [|n IH]; intros s pending Hrepr Hroom.
  - exists s, pending. simpl. auto.
  - destruct (step_publish_room s topic d pending Hrepr) as (s1 & Hstep & Hr1 & _);
      [lia|].
    destruct (IH s1 _ Hr1) as (s' & pending' & Hexec & Hr' & Hlen).
    { rewrite length_app. simpl. lia. }
    exists s', pending'. cbn [repeat exec]. rewrite Hstep.
    split; [exact Hexec|]. split; [exact Hr'|].
    rewrite Hlen, length_app. simpl. lia.
Qed.

Lemma publish_full (topic : string) (d : MarketData) (b : bus_t)
      (l : list MessageWrapper) :
  RingBuffer.repr SIZE (ring_buffer_ b) l ->
  Z.of_nat (length l) = SIZE - 1 ->
  snd (fst (publish topic d b)) = false.
Proof.
  intros Hrepr Hfull. unfold publish.
  rewrite (repr_write_full SIZE SIZE_pos SIZE_pow2 SIZE_fits _ _ l Hrepr Hfull).
  reflexivity.
Qed.

End TopicsAndSequence.

(** ** The theorems at concrete inputs *)

Lemma published_ticks_read_once_in_order_witness :
  exists s,
    MessageBus.exec sample_ops (MessageBus.start 0%nat) = Some s /\
    (exists pending,
       RingBuffer.repr MessageBus.DEFAULT_RING_BUFFER_SIZE
         (MessageBus.ring_buffer_ (MessageBus.bus s)) pending /\
       MessageBus.enqueued s = MessageBus.dequeued s ++ pending) /\
    StronglySorted Z.lt (map wseq (MessageBus.dequeued s)) /\
    NoDup (map wseq (MessageBus.dequeued s)) /\
    (forall (k : nat) (s' : MessageBus.system nat),
       MessageBus.get_size (MessageBus.bus s) <= Z.of_nat k ->
       MessageBus.exec (repeat MessageBus.OpIterate k) s = Some s' ->
       MessageBus.dequeued s' = MessageBus.enqueued s /\
       MessageBus.enqueued s' = MessageBus.enqueued s /\
       MessageBus.is_empty (MessageBus.bus s') = true) /\
    (Forall MessageBus.throws_only_std
       (default [] (MessageBus.subscribers_ (MessageBus.bus s) !! "market_data")) ->
     forall k : nat, exists s', MessageBus.exec (repeat MessageBus.OpIterate k) s = Some s').
Proof.
  eexists. split; [vm_compute; reflexivity|].
  apply (published_ticks_read_once_in_order 0%nat sample_ops);
    [reflexivity | vm_compute; reflexivity].
Defined.

Lemma processed_plus_size_is_published_witness :
  exists s,
    MessageBus.exec sample_ops (MessageBus.start 0%nat) = Some s /\
    MessageBus.get_processed_count (MessageBus.bus s)
      + MessageBus.get_size (MessageBus.bus s)
    = MessageBus.get_published_count (MessageBus.bus s).
Proof.
  eexists. split; [vm_compute; reflexivity|].
  apply (processed_plus_size_is_published 0%nat sample_ops);
    [vm_compute; reflexivity | reflexivity].
Defined.

Lemma publish_sequence_and_counters_witness :
  exists b' ok evs,
    MessageBus.publish "market_data" (sample_tick 0) (@MessageBus.create nat)
      = (b', ok, evs) /\
    MessageBus.sequence_ b' = 1 /\ ok = true /\
    MessageBus.get_published_count b' = 1.
Proof.
  destruct (publish_sequence_and_counters "market_data" (sample_tick 0)
              (@MessageBus.create nat) (RingBuffer.reach_init _))
    as (_ & b' & ok & evs & Hpub & Hseq & _ & Hroom & _).
  exists b', ok, evs. split; [exact Hpub|]. split; [exact Hseq|].
  destruct (Hroom eq_refl) as (Hok & _ & _ & Hcount & _). split; assumption.
Defined.

Lemma topic_is_ignored_witness :
  MessageBus.publish "quotes" (sample_tick 0) (@MessageBus.create nat)
    = MessageBus.publish "market_data" (sample_tick 0) MessageBus.create /\
  match MessageBus.process_one escaping_bus 0%nat,
        MessageBus.process_one (MessageBus.subscribe "quotes" counting escaping_bus) 0%nat
  with
  | MessageBus.Completed b1 w1 evs1, MessageBus.Completed b2 w2 evs2 =>
      b2 = MessageBus.subscribe "quotes" counting b1 /\ w2 = w1 /\ evs2 = evs1
  | MessageBus.Escaped b1 w1 evs1, MessageBus.Escaped b2 w2 evs2 =>
      b2 = MessageBus.subscribe "quotes" counting b1 /\ w2 = w1 /\ evs2 = evs1
  | _, _ => False
  end /\
  (exists (s1 : MessageBus.system nat) (b' : MessageBus.t nat) (evs : list event),
     MessageBus.exec [MessageBus.OpPublish "quotes" (sample_tick 0)]
       {| MessageBus.bus := MessageBus.subscribe "market_data" counting MessageBus.create;
          MessageBus.world := 0%nat;
          MessageBus.enqueued := [];
          MessageBus.dequeued := [] |} = Some s1 /\
     MessageBus.process_one (MessageBus.bus s1) (MessageBus.world s1)
       = MessageBus.Completed b' 1%nat evs /\
     invoked evs
       = [(0%nat, MessageBus.unwrap (MessageBus.make_wrapper (sample_tick 0) 1))]).
Proof.
  split; [|split].
  - apply (topic_is_ignored "quotes" (sample_tick 0) MessageBus.create 0%nat).
  - apply (topic_is_ignored "quotes" (sample_tick 0) escaping_bus 0%nat).
    discriminate.
  - destruct (proj1 (proj2 (proj2 (proj2
                (topic_is_ignored "quotes" (sample_tick 0) MessageBus.create 0%nat))))
                {| MessageBus.bus :=
                     MessageBus.subscribe "market_data" counting MessageBus.create;
                   MessageBus.world := 0%nat;
                   MessageBus.enqueued := [];
                   MessageBus.dequeued := [] |} [])
      as (s1 & b' & evs & Hexec & _ & _ & Hone & Hinv).
    + apply repr_init. exact SIZE_pos.
    + reflexivity.
    + vm_compute. repeat constructor; intros d w; discriminate.
    + exists s1, b', evs. split; [exact Hexec|].
      assert (Hw : MessageBus.world s1 = 0%nat).
      { vm_compute in Hexec. injection Hexec as <-. reflexivity. }
      rewrite Hw in Hone |- *. split; [exact Hone | exact Hinv].
Defined.

(** A symbol of 16 bytes without NUL is cut to its first 15 bytes. *)
Example long_symbol_cut :
  c_str (symbol (data (MessageBus.make_wrapper long_tick 1)))
    = String.list_byte_of_string "ABCDEFGHIJKLMNO" /\
  length (c_str (source (data (MessageBus.make_wrapper long_tick 1)))) = 31%nat.
Proof. split; reflexivity. Qed.
(** The ring filled by 1023 publishes: the 1024th is dropped and uses up
    number 1024. *)
Lemma dropped_publish_consumes_sequence_number_witness :
  exists s,
    MessageBus.exec full_ops (MessageBus.start 0%nat) = Some s /\
    snd (fst (MessageBus.publish "market_data" (sample_tick 7) (MessageBus.bus s)))
      = false /\
    MessageBus.sequence_ (MessageBus.bus s) = 1023 /\
    exists s1,
      MessageBus.step (MessageBus.OpPublish "market_data" (sample_tick 7)) s = Some s1 /\
      MessageBus.enqueued s1 = MessageBus.enqueued s /\
      MessageBus.sequence_ (MessageBus.bus s1) = 1024 /\
      forall (ops' : list (MessageBus.op nat)) (s2 : MessageBus.system nat),
        MessageBus.exec ops' s1 = Some s2 ->
        1023 + 1 + Z.of_nat (MessageBus.publish_calls ops') < 2 ^ 64 ->
        ~ In (1023 + 1) (map wseq (MessageBus.enqueued s2)).
Proof.
  destruct (exec_publish_room "market_data" (sample_tick 0) 1023
              (MessageBus.start 0%nat) [] (repr_init _ SIZE_pos))
    as (s & pending & Hexec & Hrepr & Hlen); [vm_compute; discriminate|].
  assert (Hdrop : snd (fst (MessageBus.publish "market_data" (sample_tick 7)
                              (MessageBus.bus s))) = false).
  { apply (publish_full _ _ _ pending Hrepr). rewrite Hlen. reflexivity. }
  exists s. split; [exact Hexec|]. split; [exact Hdrop|].
  destruct (dropped_publish_consumes_sequence_number 0%nat full_ops s "market_data"
              (sample_tick 7) Hexec)
    as (_ & Hseq & _ & _ & Hgap); [vm_compute; reflexivity|].
  split; [exact Hseq|].
  destruct (Hgap Hdrop) as (s1 & Hstep & Henq & Hseq1 & _ & Hnever).
  exists s1. auto.
Defined.

(** * Further properties *)

(** ** The ring buffer: destructor, runs of writes and reads *)

Section RingBufferSequencesFacts.
Context {T : Type}.
Variable Size : Z.
Hypothesis Size_pos : 0 < Size.
Hypothesis Size_pow2 : Z.land Size (Size - 1) = 0.
Hypothesis Size_fits : Size < 2 ^ 64.

Import RingBuffer.

Lemma repr_indices_differ (rb : t T) (x : T) (l : list T) :
  repr Size rb (x :: l) -> read_index_ rb <> write_index_ rb.
Proof.
  intros (Hr & Hw & Hl & Hwr & _) Heq. simpl length in *.
  rewrite Hwr in Heq.
  assert (Z.of_nat (S (length l)) = 0); [|lia].
  apply (ring_offsets_distinct Size Size_pos (read_index_ rb)); try lia.
  rewrite <- Heq, Z.add_0_r. symmetry. apply Z.mod_small. lia.
Qed.

(** X1. The destructor of a buffer that holds the objects [l] leaves the
    loop after [length l] passes, with the buffer empty, the write
    position untouched, the slot of each of those objects destroyed and
    every other slot as it was. *)
Theorem destructor_destroys_live_slots
        (fuel : nat) (rb : t T) (l : list T) :
  repr Size rb l ->
  (length l <= fuel)%nat ->
  exists rb',
    RingBuffer_destructor Size fuel rb = Some rb' /\
    is_empty rb' = true /\
    write_index_ rb' = write_index_ rb /\
    (forall i : nat,
       (i < length l)%nat ->
       buffer_ rb' !! ((read_index_ rb + Z.of_nat i) mod Size) = None) /\
    (forall j : Z,
       (forall i : nat, (i < length l)%nat ->
                        j <> (read_index_ rb + Z.of_nat i) mod Size) ->
       buffer_ rb' !! j = buffer_ rb !! j).
Proof.
  revert fuel rb. induction l as [|x l IH]; intros fuel rb Hrepr Hfuel.
  - assert (Hempty : (read_index_ rb =? write_index_ rb) = true).
    { destruct Hrepr as (Hr & Hw & _ & Hwr & _). simpl in Hwr.
      rewrite Z.add_0_r, Z.mod_small in Hwr by lia. rewrite Hwr. apply Z.eqb_refl. }
    exists rb. destruct fuel; simpl; rewrite Hempty;
      (split; [reflexivity|]); (split; [exact Hempty|]);
      (split; [reflexivity|]); (split; [intros i Hi; simpl in Hi; lia | reflexivity]).
  - destruct fuel as [|fuel]; [simpl in Hfuel; lia|].
    pose proof (repr_indices_differ rb x l Hrepr) as Hne.
    destruct (repr_read_cons Size Size_pos Size_pow2 Size_fits x x rb l Hrepr)
      as (rb1 & Hread & Hrb1).
    unfold read in Hread. rewrite (proj2 (Z.eqb_neq _ _) Hne) in Hread.
    injection Hread as Hrb1eq _.
    cbn [RingBuffer_destructor]. rewrite (proj2 (Z.eqb_neq _ _) Hne), Hrb1eq.
    destruct (IH fuel rb1 Hrb1) as (rb' & Hrun & Hemp & Hw' & Hgone & Hkept);
      [simpl in Hfuel; lia|].
    assert (Hr1 : read_index_ rb1 = (read_index_ rb + 1) mod Size).
    { rewrite <- Hrb1eq. simpl. apply next_index_mod; assumption. }
    assert (Hshift : forall i : nat,
              (read_index_ rb1 + Z.of_nat i) mod Size
              = (read_index_ rb + Z.of_nat (S i)) mod Size).
    { intros i. rewrite Hr1, Z.add_mod_idemp_l by lia. f_equal. lia. }
    destruct Hrepr as (Hr & Hw & Hl & Hwr & _). simpl length in *.
    exists rb'. split; [exact Hrun|]. split; [exact Hemp|].
    split; [rewrite Hw', <- Hrb1eq; reflexivity|]. split.
    + intros [|i] Hi.
      * rewrite Hkept.
        -- rewrite <- Hrb1eq. simpl. rewrite Z.add_0_r, Z.mod_small by lia.
           apply lookup_delete_eq.
        -- intros i Hi'. rewrite Hshift. intros Heq.
           apply (ring_offsets_distinct Size Size_pos) in Heq; lia.
      * rewrite <- Hshift. apply Hgone. lia.
    + intros j Hj. rewrite Hkept.
      * rewrite <- Hrb1eq. simpl. apply lookup_delete_ne.
        specialize (Hj O ltac:(lia)). simpl in Hj.
        rewrite Z.add_0_r, Z.mod_small in Hj by lia. congruence.
      * intros i Hi. rewrite Hshift. apply Hj. lia.
Qed.

Lemma write_all_repr (items : list T) (rb : t T) (l : list T) (room : nat) :
  repr Size rb l ->
  Z.of_nat room = Size - 1 - Z.of_nat (length l) ->
  repr Size (fst (write_all Size items rb)) (l ++ firstn room items) /\
  snd (write_all Size items rb)
    = repeat true (Nat.min (length items) room)
        ++ repeat false (length items - room).
Proof.
  revert rb l room. induction items as [|x items IH]; intros rb l room Hrepr Hroom.
  - simpl. rewrite firstn_nil, app_nil_r. auto.
  - cbn [write_all]. destruct room as [|room].
    + rewrite (repr_write_full Size Size_pos Size_pow2 Size_fits x rb l Hrepr) by lia.
      destruct (IH rb l O Hrepr Hroom) as [Hr Hoks].
      destruct (write_all Size items rb) as [rb2 oks]. simpl in *.
      split; [exact Hr|]. rewrite Hoks, Nat.min_0_r, Nat.sub_0_r. reflexivity.
    + destruct (repr_write_ok Size Size_pos Size_pow2 Size_fits x rb l Hrepr)
        as (rb1 & Hwrite & Hrb1); [lia|].
      rewrite Hwrite.
      destruct (IH rb1 (l ++ [x]) room Hrb1) as [Hr Hoks].
      { rewrite length_app. simpl. lia. }
      destruct (write_all Size items rb1) as [rb2 oks]. simpl in *.
      split; [rewrite <- app_assoc in Hr; exact Hr|]. rewrite Hoks. reflexivity.
Qed.

(** X2. Writing the items of a list one after the other into a buffer
    that holds [l]: the first [Size - 1 - length l] writes return [true]
    and store their items behind [l], in order; every later write returns
    [false] and stores nothing; [size()] ends at
    [min (length l + number of writes) (Size - 1)]. *)
Theorem writes_fill_free_space (items : list T) (rb : t T) (l : list T) :
  repr Size rb l ->
  let room := Z.to_nat (Size - 1 - Z.of_nat (length l)) in
  repr Size (fst (write_all Size items rb)) (l ++ firstn room items) /\
  snd (write_all Size items rb)
    = repeat true (Nat.min (length items) room)
        ++ repeat false (length items - room) /\
  size Size (fst (write_all Size items rb))
    = Z.min (Z.of_nat (length l + length items)) (Size - 1).
Proof.
  intros Hrepr room.
  assert (Hlen : Z.of_nat (length l) < Size) by apply Hrepr.
  destruct (write_all_repr items rb l room Hrepr) as [Hr Hoks]; [unfold room; lia|].
  split; [exact Hr|]. split; [exact Hoks|].
  rewrite (repr_size Size Size_pos Size_pow2 Size_fits _ _ Hr).
  rewrite length_app, length_firstn. unfold room. lia.
Qed.

Lemma read_n_repr (n : nat) (item : T) (rb : t T) (l : list T) :
  repr Size rb l ->
  snd (read_n Size n item rb) = firstn n l /\
  repr Size (fst (read_n Size n item rb)) (skipn n l).
Proof.
  revert item rb l. induction n as [|n IH]; intros item rb l Hrepr.
  - simpl. auto.
  - cbn [read_n]. destruct l as [|x l].
    + rewrite (repr_read_nil Size item rb Hrepr).
      destruct (IH item rb [] Hrepr) as [Hxs Hr].
      destruct (read_n Size n item rb) as [rb2 xs]. simpl in *.
      rewrite firstn_nil in Hxs. rewrite skipn_nil in Hr. auto.
    + destruct (repr_read_cons Size Size_pos Size_pow2 Size_fits item x rb l Hrepr)
        as (rb1 & Hread & Hrb1).
      rewrite Hread. destruct (IH x rb1 l Hrb1) as [Hxs Hr].
      destruct (read_n Size n x rb1) as [rb2 xs]. simpl in *.
      rewrite Hxs. auto.
Qed.

(** X3. First in, first out: [n] reads from a buffer that holds [l]
    deliver the first [n] objects of [l], in order, and leave the rest;
    reads beyond the end return [false] and deliver nothing.  So a list of
    at most [Size - 1] items written into a new buffer is read back as it
    was written, and the buffer is empty again. *)
Theorem reads_return_writes_in_order
        (n : nat) (item : T) (rb : t T) (l items : list T) :
  repr Size rb l ->
  snd (read_n Size n item rb) = firstn n l /\
  repr Size (fst (read_n Size n item rb)) (skipn n l) /\
  (Z.of_nat (length items) <= Size - 1 ->
   snd (read_n Size (length items) item (fst (write_all Size items init))) = items /\
   is_empty (fst (read_n Size (length items) item (fst (write_all Size items init))))
     = true).
Proof.
  intros Hrepr. destruct (read_n_repr n item rb l Hrepr) as [Hxs Hr].
  split; [exact Hxs|]. split; [exact Hr|].
  intros Hfit.
  destruct (write_all_repr items init [] (Z.to_nat (Size - 1)) (repr_init Size Size_pos))
    as [Hw _]; [simpl; lia|].
  rewrite firstn_all2 in Hw by lia. simpl in Hw.
  destruct (read_n_repr (length items) item _ items Hw) as [Hxs' Hr'].
  rewrite firstn_all in Hxs'. rewrite skipn_all in Hr'.
  split; [exact Hxs'|].
  destruct Hr' as (Hri & Hwi & _ & Hwr & _). unfold is_empty. simpl in Hwr.
  rewrite Z.add_0_r, Z.mod_small in Hwr by lia. rewrite Hwr. apply Z.eqb_refl.
Qed.

End RingBufferSequencesFacts.

(** A buffer of eight slots holding one object, destroyed. *)
Lemma destructor_destroys_live_slots_witness :
  exists rb',
    RingBuffer_destructor 8 1 (fst (RingBuffer.write 8 42 RingBuffer.init)) = Some rb' /\
    RingBuffer.is_empty rb' = true /\
    RingBuffer.buffer_ rb' !! 0 = None.
Proof.
  destruct (repr_write_ok 8 eq_refl eq_refl eq_refl 42 RingBuffer.init []
              (repr_init 8 eq_refl) eq_refl) as (rb & Hwrite & Hrb).
  rewrite Hwrite. simpl fst.
  destruct (destructor_destroys_live_slots 8 eq_refl eq_refl eq_refl 1 rb [42] Hrb
              (le_n 1)) as (rb' & Hrun & Hemp & _ & Hgone & _).
  exists rb'. split; [exact Hrun|]. split; [exact Hemp|].
  assert (Hr0 : RingBuffer.read_index_ rb = 0).
  { unfold RingBuffer.write in Hwrite. simpl in Hwrite. injection Hwrite as <-.
    reflexivity. }
  specialize (Hgone O (le_n 1)). rewrite Hr0 in Hgone. exact Hgone.
Defined.

(** Nine writes into a new buffer of eight slots (seven usable): seven
    succeed, two are refused. *)
Lemma writes_fill_free_space_witness :
  snd (write_all 8 [0; 1; 2; 3; 4; 5; 6; 7; 8] (@RingBuffer.init Z))
    = [true; true; true; true; true; true; true; false; false] /\
  RingBuffer.size 8 (fst (write_all 8 [0; 1; 2; 3; 4; 5; 6; 7; 8] RingBuffer.init)) = 7.
Proof.
  destruct (writes_fill_free_space 8 eq_refl eq_refl eq_refl
              [0; 1; 2; 3; 4; 5; 6; 7; 8] RingBuffer.init [] (repr_init 8 eq_refl))
    as (_ & Hoks & Hsize).
  split; [exact Hoks | exact Hsize].
Defined.

Lemma reads_return_writes_in_order_witness :
  snd (read_n 8 3 0 (fst (write_all 8 [10; 20; 30] (@RingBuffer.init Z))))
    = [10; 20; 30].
Proof.
  apply (reads_return_writes_in_order 8 eq_refl eq_refl eq_refl 0 0
           RingBuffer.init [] [10; 20; 30] (repr_init 8 eq_refl)).
  simpl. lia.
Defined.

(** ** The bus: draining, subscription order, resets, the delay *)

Section BusRunsFacts.
Context {World : Type}.
Import MessageBus.

Abbreviation SIZE := DEFAULT_RING_BUFFER_SIZE.
Abbreviation bus_t := (MessageBus.t World).
Abbreviation callback := (MessageBus.callback World).
Abbreviation system := (MessageBus.system World).

Lemma invoked_app (evs1 evs2 : list event) :
  invoked (evs1 ++ evs2) = invoked evs1 ++ invoked evs2.
Proof. unfold invoked. apply flat_map_app. Qed.

Lemma sleeps_app (evs1 evs2 : list event) :
  sleeps (evs1 ++ evs2) = sleeps evs1 ++ sleeps evs2.
Proof. unfold sleeps. apply flat_map_app. Qed.

Lemma invoked_delay_sleep (b : bus_t) : invoked (delay_sleep b) = [].
Proof. unfold delay_sleep. destruct (0 <? _); reflexivity. Qed.

Lemma sleeps_delay_sleep (b : bus_t) :
  sleeps (delay_sleep b)
    = if 0 <? processing_delay_ms_ b then [processing_delay_ms_ b] else [].
Proof. unfold delay_sleep. destruct (0 <? _); reflexivity. Qed.

Lemma wrap_u64_idem (x : Z) : wrap_u64 (wrap_u64 x) = wrap_u64 x.
Proof. unfold wrap_u64. apply Z.mod_mod. lia. Qed.

Lemma process_messages_drain
        (n : nat) (b : bus_t) (w : World) (l : list MessageWrapper) :
  RingBuffer.repr SIZE (ring_buffer_ b) l ->
  Forall throws_only_std (default [] (subscribers_ b !! "market_data")) ->
  0 <= processed_count_ b < 2 ^ 64 ->
  (length l <= n)%nat ->
  exists (b' : bus_t) (evs : list event),
    process_messages n b w
      = (Some (b', deliver_all (default [] (subscribers_ b !! "market_data"))
                     (map unwrap l) w), evs) /\
    RingBuffer.repr SIZE (ring_buffer_ b') [] /\
    processed_count_ b' = wrap_u64 (processed_count_ b + Z.of_nat (length l)) /\
    invoked evs
      = fan_out (default [] (subscribers_ b !! "market_data")) (map unwrap l) /\
    sleeps evs
      = (if 0 <? processing_delay_ms_ b
         then repeat (processing_delay_ms_ b) n else []) /\
    subscribers_ b' = subscribers_ b /\
    published_count_ b' = published_count_ b /\
    sequence_ b' = sequence_ b.
Proof.
  revert b w l. induction n as [|n IH]; intros b w l Hrepr Hstd Hrange Hlen.
  - destruct l; [|simpl in Hlen; lia].
    exists b, []. simpl. rewrite Z.add_0_r, wrap_u64_small by exact Hrange.
    split; [reflexivity|]. split; [exact Hrepr|]. split; [reflexivity|].
    split; [reflexivity|]. split; [destruct (0 <? _); reflexivity|].
    repeat split.
  - cbn [process_messages]. destruct l as [|x l].
    + rewrite (process_one_empty b w (repr_is_empty _ Hrepr)).
      destruct (IH b w [] Hrepr Hstd Hrange) as (b' & evs & Hrun & Hr & Hp & Hinv & Hsl & Hrest);
        [simpl; lia|].
      rewrite Hrun. exists b', (delay_sleep b ++ evs).
      split; [reflexivity|]. split; [exact Hr|]. split; [exact Hp|].
      split; [rewrite invoked_app, invoked_delay_sleep; exact Hinv|].
      split; [|exact Hrest].
      rewrite sleeps_app, sleeps_delay_sleep, Hsl.
      destruct (0 <? _); reflexivity.
    + destruct (process_one_head b w x l Hrepr) as (rb & _ & Hrb & Hone).
      destruct (notify_std _ 0 (unwrap x) w Hstd) as (evs0 & Hnotify & Hinv0).
      rewrite Hone, Hnotify.
      set (b1 := count_processed (with_ring rb b)).
      destruct (IH b1 (deliver (default [] (subscribers_ b !! "market_data"))
                         (unwrap x) w) l Hrb Hstd)
        as (b' & evs & Hrun & Hr & Hp & Hinv & Hsl & Hsub & Hpub & Hseq).
      { simpl. apply Z.mod_pos_bound. lia. }
      { simpl in Hlen. lia. }
      change (subscribers_ b1) with (subscribers_ b) in Hrun, Hinv, Hsub.
      change (processing_delay_ms_ b1) with (processing_delay_ms_ b) in Hsl.
      rewrite Hrun. exists b', ((evs0 ++ delay_sleep b) ++ evs).
      split; [reflexivity|]. split; [exact Hr|]. split.
      { rewrite Hp. simpl. rewrite wrap_u64_add_l. f_equal. lia. }
      split.
      { rewrite !invoked_app, invoked_delay_sleep, app_nil_r, Hinv0, Hinv.
        reflexivity. }
      split; [|auto].
      rewrite !sleeps_app, sleeps_delay_sleep, Hsl.
      replace (sleeps evs0) with (@nil Z).
      * destruct (0 <? _); reflexivity.
      * pose proof (notify_no_sleep (default [] (subscribers_ b !! "market_data"))
                      0 (unwrap x) w) as Hns.
        rewrite Hnotify in Hns. simpl in Hns. symmetry. exact Hns.
Qed.

(** X4. [process_messages] on a ring that holds the envelopes [l], when
    the callbacks throw only [std::exception]s and the run flag stays set
    for at least [length l] passes: the loop is left through the flag, the
    ring is empty, the processed counter has gone up by [length l], every
    tick went to every "market_data" callback, tick after tick in ring
    order and callback after callback in subscription order, and the loop
    slept once per pass (empty passes included) when the delay is
    positive. *)
Theorem process_messages_drains
        (n : nat) (b : bus_t) (w : World) (l : list MessageWrapper) :
  RingBuffer.repr SIZE (ring_buffer_ b) l ->
  Forall throws_only_std (default [] (subscribers_ b !! "market_data")) ->
  0 <= processed_count_ b < 2 ^ 64 ->
  (length l <= n)%nat ->
  exists (b' : bus_t) (evs : list event),
    process_messages n b w
      = (Some (b', deliver_all (default [] (subscribers_ b !! "market_data"))
                     (map unwrap l) w), evs) /\
    RingBuffer.repr SIZE (ring_buffer_ b') [] /\
    processed_count_ b' = wrap_u64 (processed_count_ b + Z.of_nat (length l)) /\
    invoked evs
      = fan_out (default [] (subscribers_ b !! "market_data")) (map unwrap l) /\
    sleeps evs
      = (if 0 <? processing_delay_ms_ b
         then repeat (processing_delay_ms_ b) n else []) /\
    subscribers_ b' = subscribers_ b /\
    published_count_ b' = published_count_ b /\
    sequence_ b' = sequence_ b.
Proof. apply process_messages_drain. Qed.

(** X5. [subscribe] appends: on the next tick the callback subscribed
    last under "market_data" is called last, after the callbacks
    subscribed before it, on the state they leave; nothing is
    deduplicated, so a callback subscribed a second time is called a
    second time. *)
Theorem subscribe_appends
        (cb : callback) (b : bus_t) (w : World)
        (x : MessageWrapper) (l : list MessageWrapper) :
  RingBuffer.repr SIZE (ring_buffer_ b) (x :: l) ->
  Forall throws_only_std (default [] (subscribers_ b !! "market_data")) ->
  throws_only_std cb ->
  let cbs := default [] (subscribers_ b !! "market_data") in
  subscribers_ (subscribe "market_data" cb b) !! "market_data" = Some (cbs ++ [cb]) /\
  exists (b' : bus_t) (evs : list event),
    process_one (subscribe "market_data" cb b) w
      = Completed b' (fst (cb (unwrap x) (deliver cbs (unwrap x) w))) evs /\
    invoked evs
      = map (fun i => (i, unwrap x)) (List.seq 0 (length cbs))
          ++ [(length cbs, unwrap x)].
Proof.
  intros Hrepr Hstd Hcb cbs.
  assert (Hsub : subscribers_ (subscribe "market_data" cb b) !! "market_data"
                 = Some (cbs ++ [cb])).
  { simpl. apply lookup_insert_eq. }
  split; [exact Hsub|].
  destruct (process_one_head (subscribe "market_data" cb b) w x l Hrepr)
    as (rb & _ & _ & Hone).
  rewrite Hsub in Hone. simpl default in Hone.
  destruct (notify_std (cbs ++ [cb]) 0 (unwrap x) w) as (evs0 & Hnotify & Hinv0).
  { apply Forall_app. split; [exact Hstd | constructor; [exact Hcb | constructor]]. }
  rewrite Hnotify in Hone.
  do 2 eexists. split.
  - rewrite Hone. f_equal. unfold deliver. rewrite fold_left_app. reflexivity.
  - rewrite invoked_app, invoked_delay_sleep, app_nil_r, Hinv0.
    rewrite length_app, seq_app, map_app. simpl. reflexivity.
Qed.

(** *** Runs with [reset_counters] *)

Lemma wrap_u64_congr (a b c : Z) :
  wrap_u64 a = wrap_u64 b -> wrap_u64 (a + c) = wrap_u64 (b + c).
Proof.
  unfold wrap_u64. intros H.
  rewrite <- (Z.add_mod_idemp_l a), <- (Z.add_mod_idemp_l b), H by lia. reflexivity.
Qed.

Lemma reset_inv_step (r : system) (o : op World) (s s' : system) :
  step o s = Some s' -> reset_inv r s -> reset_inv r s'.
Proof.
  intros Hstep
    (enq & deq & pr & pending & Hrr & Hhr & Hrepr & Hhist & Henq & Hdeq
       & Hpub & Hproc & Hdrop & Hzero).
  destruct o as [topic d| |topic cb|ms| |]; simpl in Hstep.
  - unfold publish in Hstep.
    assert (Hlen : Z.of_nat (length pending) < SIZE) by apply Hrepr.
    destruct (Z.eq_dec (Z.of_nat (length pending)) (SIZE - 1)) as [Hfull|Hroom].
    + rewrite (repr_write_full SIZE SIZE_pos SIZE_pow2 SIZE_fits _ _ pending Hrepr Hfull)
        in Hstep.
      injection Hstep as <-. exists enq, deq, pr, pending. simpl.
      repeat (split; [assumption|]). split; [|exact Hzero].
      rewrite Hdrop, wrap_u64_add_l.
      replace (wrap_u64 (sequence_ (bus s) + 1) - sequence_ (bus r)
               - Z.of_nat (length enq))
        with (wrap_u64 (sequence_ (bus s) + 1)
              + (- sequence_ (bus r) - Z.of_nat (length enq))) by lia.
      rewrite wrap_u64_add_l. f_equal. lia.
    + destruct (repr_write_ok SIZE SIZE_pos SIZE_pow2 SIZE_fits
                  (make_wrapper d (wrap_u64 (sequence_ (bus s) + 1)))
                  _ pending Hrepr ltac:(lia)) as (rb & Hwrite & Hrb).
      rewrite Hwrite in Hstep. injection Hstep as <-.
      exists (enq ++ [make_wrapper d (wrap_u64 (sequence_ (bus s) + 1))]), deq, pr.
      eexists. simpl.
      split; [exact Hrr|]. split; [exact Hhr|]. split; [exact Hrb|].
      split; [rewrite Hhist, <- app_assoc; reflexivity|].
      split; [rewrite Henq, <- app_assoc; reflexivity|].
      split; [exact Hdeq|].
      split; [rewrite Hpub, wrap_u64_add_l, length_snoc_Z; reflexivity|].
      split; [exact Hproc|]. split; [|exact Hzero].
      rewrite Hdrop, length_snoc_Z.
      replace (wrap_u64 (sequence_ (bus s) + 1) - sequence_ (bus r)
               - (Z.of_nat (length enq) + 1))
        with (wrap_u64 (sequence_ (bus s) + 1)
              + (- sequence_ (bus r) - (Z.of_nat (length enq) + 1))) by lia.
      rewrite wrap_u64_add_l. f_equal. lia.
  - destruct pending as [|x pending].
    + rewrite (repr_read_nil SIZE _ _ Hrepr) in Hstep.
      rewrite (process_one_empty _ _ (repr_is_empty _ Hrepr)) in Hstep.
      injection Hstep as <-. exists enq, deq, pr, []. simpl.
      repeat (split; [assumption|]). exact Hzero.
    + destruct (process_one_head (bus s) (world s) x pending Hrepr)
        as (rb & Hread & Hrb & Hone).
      rewrite Hread, Hone in Hstep.
      destruct (notify _ 0 (unwrap x) (world s)) as [[w1 evs1] [|]]; [|discriminate].
      injection Hstep as <-. exists enq, (deq ++ [x]), pr, pending. simpl.
      split; [exact Hrr|]. split; [exact Hhr|]. split; [exact Hrb|].
      split; [rewrite Hhist, <- app_assoc; reflexivity|].
      split; [exact Henq|].
      split; [rewrite Hdeq, <- app_assoc; reflexivity|].
      split; [exact Hpub|].
      split; [rewrite Hproc, wrap_u64_add_l, length_snoc_Z; reflexivity|].
      split; [exact Hdrop | exact Hzero].
  - injection Hstep as <-. exists enq, deq, pr, pending. simpl.
    repeat (split; [assumption|]). exact Hzero.
  - injection Hstep as <-. exists enq, deq, pr, pending. simpl.
    repeat (split; [assumption|]). exact Hzero.
  - injection Hstep as <-. exists enq, deq, pr, pending.
    repeat (split; [assumption|]). exact Hzero.
  - injection Hstep as <-. exists enq, deq, pr, pending.
    repeat (split; [assumption|]). exact Hzero.
Qed.

Lemma exec_calls_reset_inv (cs : list (call World)) (s r s' r' : system) :
  exec_calls cs (s, r) = Some (s', r') -> reset_inv r s -> reset_inv r' s'.
Proof.
  revert s r. induction cs as [|c cs IH]; intros s r; simpl.
  - intros [= <- <-]. trivial.
  - destruct c as [o|]; simpl.
    + destruct (step o s) as [s1|] eqn:Hstep; [|discriminate].
      intros Hexec Hinv. apply (IH s1 r Hexec). apply (reset_inv_step r o s s1 Hstep Hinv).
    + intros Hexec (enq & deq & pr & pending & _ & _ & Hrepr & Hhist & _).
      apply (IH _ _ Hexec).
      exists [], [], pending, pending. simpl. rewrite !app_nil_r, Z.sub_diag.
      repeat (split; [assumption || reflexivity|]). reflexivity.
Qed.

Lemma exec_calls_sequence (cs : list (call World)) (s r s' r' : system) :
  exec_calls cs (s, r) = Some (s', r') ->
  wrap_u64 (sequence_ (bus s'))
    = wrap_u64 (sequence_ (bus s) + Z.of_nat (publish_calls_in cs)).
Proof.
  revert s r. induction cs as [|c cs IH]; intros s r; simpl.
  - intros [= <- <-]. rewrite Z.add_0_r. reflexivity.
  - destruct c as [o|]; simpl.
    + destruct (step o s) as [s1|] eqn:Hstep; [|discriminate].
      intros Hexec. rewrite (IH s1 r Hexec).
      pose proof (step_sequence o s s1 Hstep) as Hs.
      destruct o as [topic d| |topic cb|ms| |];
        try (destruct Hs as [-> _]; reflexivity).
      destruct Hs as [-> _]. rewrite wrap_u64_add_l. f_equal. lia.
    + intros Hexec. rewrite (IH _ _ Hexec). reflexivity.
Qed.


Lemma exec_delay (ops : list (op World)) (s s' : system) :
  exec ops s = Some s' ->
  processing_delay_ms_ (bus s') = last_delay ops (processing_delay_ms_ (bus s)).
Proof.
  revert s. induction ops as [|o ops IH]; intros s; simpl.
  - intros [= <-]. reflexivity.
  - destruct (step o s) as [s1|] eqn:Hstep; [|discriminate].
    intros Hexec. rewrite (IH s1 Hexec).
    destruct o as [topic d| |topic cb|ms| |]; simpl in Hstep.
    + unfold publish in Hstep.
      destruct (RingBuffer.write SIZE _ (ring_buffer_ (bus s))) as [rb [|]];
        injection Hstep as <-; reflexivity.
    + destruct (RingBuffer.read SIZE empty_wrapper _) as [[rb x] ok].
      destruct (process_one (bus s) (world s)) as [b1 w1 evs1|] eqn:Hone; [|discriminate].
      injection Hstep as <-. simpl. f_equal.
      apply (process_one_frame _ _ _ _ _ Hone).
    + injection Hstep as <-. reflexivity.
    + injection Hstep as <-. reflexivity.
    + injection Hstep as <-. reflexivity.
    + injection Hstep as <-. reflexivity.
Qed.

Lemma last_delay_nonneg (ops : list (op World)) (d0 : Z) :
  0 <= d0 -> 0 <= last_delay ops d0.
Proof.
  revert d0. induction ops as [|o ops IH]; intros d0 H0; simpl; [exact H0|].
  destruct o; try (apply IH; exact H0). apply IH. lia.
Qed.

(** X7. The processing delay is never negative: in every state of a run
    from a new bus it is 0 until the first [set_processing_delay_ms] and
    [max(0, ms)] of the last one afterwards; [publish], the passes of the
    consumer loop and [subscribe] leave it alone, and any sleep the next
    pass makes lasts exactly that long. *)
Theorem delay_is_last_request_clamped
        (w0 : World) (ops : list (op World)) (s : system) :
  exec ops (start w0) = Some s ->
  get_processing_delay_ms (bus s) = last_delay ops 0 /\
  0 <= get_processing_delay_ms (bus s) /\
  (forall (ms : Z) (s1 : system),
     step (OpSetDelay ms) s = Some s1 ->
     get_processing_delay_ms (bus s1) = Z.max 0 ms) /\
  (forall (b' : bus_t) (w' : World) (evs : list event),
     process_one (bus s) (world s) = Completed b' w' evs ->
     Forall (fun ms => ms = last_delay ops 0 /\ 0 < ms) (sleeps evs)).
Proof.
  intros Hexec. pose proof (exec_delay ops _ s Hexec) as Hd. simpl in Hd.
  split; [exact Hd|]. split.
  { unfold get_processing_delay_ms. rewrite Hd. apply last_delay_nonneg. lia. }
  split.
  { intros ms s1 [= <-]. reflexivity. }
  intros b' w' evs. unfold process_one.
  destruct (RingBuffer.read SIZE empty_wrapper (ring_buffer_ (bus s))) as [[rb x] [|]].
  - destruct (type x).
    pose proof (notify_no_sleep
                  (default [] (subscribers_ (with_ring rb (bus s)) !! "market_data"))
                  0 (unwrap x) (world s)) as Hns.
    destruct (notify _ 0 (unwrap x) (world s)) as [[w1 evs1] [|]]; [|discriminate].
    intros [= _ _ <-]. simpl in Hns.
    rewrite sleeps_app, Hns, sleeps_delay_sleep. simpl.
    destruct (Z.ltb_spec 0 (processing_delay_ms_ (bus s))); repeat constructor; auto.
  - intros [= _ _ <-]. rewrite sleeps_delay_sleep.
    destruct (Z.ltb_spec 0 (processing_delay_ms_ (bus s))); repeat constructor; auto.
Qed.

End BusRunsFacts.

(** ** The HTTP publishing handlers *)

Section BulkPublishFacts.
Context {World : Type}.
Import MessageBus.

Abbreviation SIZE := DEFAULT_RING_BUFFER_SIZE.
Abbreviation bus_t := (MessageBus.t World).

Lemma triple_eq {A B C : Type} (a a' : A) (b b' : B) (c c' : C) :
  a = a' -> b = b' -> c = c' -> (a, b, c) = (a', b', c').
Proof. intros -> -> ->. reflexivity. Qed.

Lemma publish_room_eq (topic : string) (d : MarketData) (b : bus_t)
      (l : list MessageWrapper) :
  RingBuffer.repr SIZE (ring_buffer_ b) l ->
  Z.of_nat (length l) < SIZE - 1 ->
  exists rb,
    RingBuffer.repr SIZE rb (l ++ [make_wrapper d (wrap_u64 (sequence_ b + 1))]) /\
    publish topic d b
      = ({| ring_buffer_ := rb;
            subscribers_ := subscribers_ b;
            published_count_ := wrap_u64 (published_count_ b + 1);
            processed_count_ := processed_count_ b;
            dropped_count_ := dropped_count_ b;
            processing_delay_ms_ := processing_delay_ms_ b;
            sequence_ := wrap_u64 (sequence_ b + 1) |}, true, []).
Proof.
  intros Hrepr Hroom.
  destruct (repr_write_ok SIZE SIZE_pos SIZE_pow2 SIZE_fits
              (make_wrapper d (wrap_u64 (sequence_ b + 1))) _ l Hrepr Hroom)
    as (rb & Hwrite & Hrb).
  exists rb. split; [exact Hrb|]. unfold publish. rewrite Hwrite. reflexivity.
Qed.

Lemma publish_full_eq (topic : string) (d : MarketData) (b : bus_t)
      (l : list MessageWrapper) :
  RingBuffer.repr SIZE (ring_buffer_ b) l ->
  Z.of_nat (length l) = SIZE - 1 ->
  publish topic d b
    = ({| ring_buffer_ := ring_buffer_ b;
          subscribers_ := subscribers_ b;
          published_count_ := published_count_ b;
          processed_count_ := processed_count_ b;
          dropped_count_ := wrap_u64 (dropped_count_ b + 1);
          processing_delay_ms_ := processing_delay_ms_ b;
          sequence_ := wrap_u64 (sequence_ b + 1) |},
       false, [EvCerr "Failed to write to ring buffer - buffer full"]).
Proof.
  intros Hrepr Hfull. unfold publish.
  rewrite (repr_write_full SIZE SIZE_pos SIZE_pow2 SIZE_fits _ _ l Hrepr Hfull).
  reflexivity.
Qed.

Lemma bulk_loop_spec (n : nat) :
  forall (i : nat) (sym : list byte) (gen : nat -> double * double * Z)
         (b : bus_t) (success dropped : Z) (l : list MessageWrapper) (room : nat)
         (s0 : Z),
    RingBuffer.repr SIZE (ring_buffer_ b) l ->
    Z.of_nat room = SIZE - 1 - Z.of_nat (length l) ->
    wrap_u64 (sequence_ b) = wrap_u64 (s0 + Z.of_nat i) ->
    exists b',
      bulk_loop n i sym gen b success dropped
        = (b', success + Z.of_nat (Nat.min n room),
           dropped + Z.of_nat (n - room)) /\
      RingBuffer.repr SIZE (ring_buffer_ b')
        (l ++ map (fun j => let '(p, v, now) := gen j in
                            make_wrapper (bulk_tick sym p v now)
                              (wrap_u64 (s0 + Z.of_nat j + 1)))
                  (List.seq i (Nat.min n room))) /\
      wrap_u64 (published_count_ b')
        = wrap_u64 (published_count_ b + Z.of_nat (Nat.min n room)) /\
      wrap_u64 (dropped_count_ b')
        = wrap_u64 (dropped_count_ b + Z.of_nat (n - room)) /\
      wrap_u64 (sequence_ b') = wrap_u64 (sequence_ b + Z.of_nat n) /\
      processed_count_ b' = processed_count_ b /\
      subscribers_ b' = subscribers_ b.
Proof.
  induction n as [|n IH]; intros i sym gen b success dropped l room s0 Hrepr Hroom Hseq.
  - exists b. simpl. rewrite !Z.add_0_r, app_nil_r.
    split; [reflexivity|]. split; [exact Hrepr|]. repeat split; reflexivity.
  - cbn [bulk_loop]. destruct (gen i) as [[p v] now] eqn:Hgen.
    assert (Hs1 : wrap_u64 (sequence_ b + 1) = wrap_u64 (s0 + Z.of_nat i + 1)).
    { unfold wrap_u64 in *.
      rewrite <- (Z.add_mod_idemp_l (sequence_ b)), Hseq, Z.add_mod_idemp_l by lia.
      reflexivity. }
    destruct room as [|room].
    + rewrite (publish_full_eq _ _ b l Hrepr) by lia.
      set (b1 := {| ring_buffer_ := ring_buffer_ b |}).
      destruct (IH (S i) sym gen b1 success (dropped + 1) l O s0 Hrepr Hroom)
        as (b' & Hrun & Hr & Hpub & Hdrop & Hsq & Hproc & Hsub).
      { simpl. rewrite wrap_u64_idem, Hs1. f_equal. lia. }
      exists b'. rewrite Hrun. rewrite !Nat.min_0_r in *. rewrite !Nat.sub_0_r in *.
      simpl in *. split; [apply triple_eq; [reflexivity | lia | lia]|].
      split; [exact Hr|]. split; [exact Hpub|]. split.
      { rewrite Hdrop, wrap_u64_add_l. f_equal. lia. }
      split; [|auto].
      rewrite Hsq, wrap_u64_add_l. f_equal. lia.
    + destruct (publish_room_eq "market_data" (bulk_tick sym p v now) b l Hrepr)
        as (rb & Hrb & Hpubl); [lia|].
      rewrite Hpubl.
      set (b1 := {| ring_buffer_ := rb |}).
      destruct (IH (S i) sym gen b1 (success + 1) dropped
                  (l ++ [make_wrapper (bulk_tick sym p v now) (wrap_u64 (sequence_ b + 1))])
                  room s0 Hrb)
        as (b' & Hrun & Hr & Hpub & Hdrop & Hsq & Hproc & Hsub).
      { rewrite length_app. simpl. lia. }
      { simpl. rewrite wrap_u64_idem, Hs1. f_equal. lia. }
      exists b'. rewrite Hrun. simpl in *.
      split; [apply triple_eq; [reflexivity | lia | lia]|].
      split.
      { rewrite <- app_assoc in Hr. simpl in Hr. rewrite Hgen, <- Hs1. exact Hr. }
      split.
      { rewrite Hpub, wrap_u64_add_l. f_equal. lia. }
      split; [exact Hdrop|]. split; [|auto].
      rewrite Hsq, wrap_u64_add_l. f_equal. lia.
Qed.

(** X8. The loop of [handle_publish_bulk], run with no consumer pass in
    between on a bus whose ring holds [l]: the first
    [1023 - length l] publishes succeed and every later one is dropped;
    the two numbers reported add up to the number of passes
    ([count], or 0 when [count] is negative); the envelopes enqueued are
    those of the first passes, in order, numbered from the sequence
    counter on; the published, dropped and sequence counters go up by the
    numbers reported (64-bit arithmetic). *)
Theorem bulk_publish_fills_then_drops
        (count : Z) (sym : list byte) (gen : nat -> double * double * Z)
        (b : bus_t) (l : list MessageWrapper) :
  RingBuffer.repr SIZE (ring_buffer_ b) l ->
  let n := Z.to_nat count in
  let room := Z.to_nat (SIZE - 1 - Z.of_nat (length l)) in
  exists b',
    handle_publish_bulk_loop count sym gen b
      = (b', Z.of_nat (Nat.min n room), Z.of_nat (n - room)) /\
    Z.of_nat (Nat.min n room) + Z.of_nat (n - room) = Z.max 0 count /\
    RingBuffer.repr SIZE (ring_buffer_ b')
      (l ++ bulk_envelopes (Nat.min n room) sym gen (sequence_ b)) /\
    wrap_u64 (published_count_ b')
      = wrap_u64 (published_count_ b + Z.of_nat (Nat.min n room)) /\
    wrap_u64 (dropped_count_ b')
      = wrap_u64 (dropped_count_ b + Z.of_nat (n - room)) /\
    wrap_u64 (sequence_ b') = wrap_u64 (sequence_ b + Z.max 0 count).
Proof.
  intros Hrepr n room.
  assert (Hlen : Z.of_nat (length l) < SIZE) by apply Hrepr.
  destruct (bulk_loop_spec n 0 sym gen b 0 0 l room (sequence_ b) Hrepr)
    as (b' & Hrun & Hr & Hpub & Hdrop & Hsq & _ & _).
  { unfold room. lia. }
  { rewrite Z.add_0_r. reflexivity. }
  exists b'. unfold handle_publish_bulk_loop. fold n. rewrite Hrun.
  split; [reflexivity|]. split; [unfold n; lia|].
  split; [exact Hr|]. split; [exact Hpub|]. split; [exact Hdrop|].
  rewrite Hsq. f_equal. unfold n. lia.
Qed.

End BulkPublishFacts.

Lemma c_str_c_str_of (s : list byte) : c_str (c_str_of s) = c_str s.
Proof.
  unfold c_str_of. induction s as [|c s IH]; simpl; [reflexivity|].
  destruct (Byte.eqb c x00); [reflexivity|]. rewrite IH. reflexivity.
Qed.

Lemma c_str_nul_free_id (s : list byte) :
  Forall (fun c => c <> x00) s -> c_str s = s.
Proof.
  induction 1 as [|c s Hc _ IH]; simpl; [reflexivity|].
  destruct (Byte.eqb c x00) eqn:Heq.
  - apply Byte.byte_dec_bl in Heq. contradiction.
  - rewrite IH. reflexivity.
Qed.

(** X9. The two HTTP handlers build the same [symbol] and [source]
    arrays; [publish] copies them into the envelope unchanged; the
    envelope's symbol is the request's symbol up to its first NUL, cut to
    15 bytes, and its source is "HTTP_API".  A request symbol of at most
    15 bytes without NUL arrives whole. *)
Theorem http_symbol_truncated
        (sym : list byte) (p v : double) (now seq0 s : Z) :
  symbol (bulk_tick sym p v now) = symbol (http_tick sym p v now seq0) /\
  source (bulk_tick sym p v now) = source (http_tick sym p v now seq0) /\
  symbol (data (MessageBus.make_wrapper (http_tick sym p v now seq0) s))
    = symbol (http_tick sym p v now seq0) /\
  source (data (MessageBus.make_wrapper (http_tick sym p v now seq0) s))
    = source (http_tick sym p v now seq0) /\
  c_str (symbol (data (MessageBus.make_wrapper (http_tick sym p v now seq0) s)))
    = firstn 15 (c_str sym) /\
  c_str (source (data (MessageBus.make_wrapper (http_tick sym p v now seq0) s)))
    = HTTP_API /\
  ((length sym <= 15)%nat -> Forall (fun c => c <> x00) sym ->
   c_str (symbol (data (MessageBus.make_wrapper (http_tick sym p v now seq0) s)))
     = sym).
Proof.
  assert (Hsym : symbol (data (MessageBus.make_wrapper (http_tick sym p v now seq0) s))
                 = symbol (http_tick sym p v now seq0)).
  { simpl. apply (copy_field_idem 16). lia. }
  assert (Hsrc : source (data (MessageBus.make_wrapper (http_tick sym p v now seq0) s))
                 = source (http_tick sym p v now seq0)).
  { simpl. apply (copy_field_idem 32). lia. }
  assert (Hc : c_str (symbol (http_tick sym p v now seq0)) = firstn 15 (c_str sym)).
  { simpl. rewrite (copy_field_c_str 16) by lia. rewrite c_str_c_str_of. reflexivity. }
  split; [reflexivity|]. split; [reflexivity|].
  split; [exact Hsym|]. split; [exact Hsrc|].
  split; [rewrite Hsym; exact Hc|]. split.
  - rewrite Hsrc. reflexivity.
  - intros Hlen Hnul. rewrite Hsym, Hc, c_str_nul_free_id by exact Hnul.
    apply firstn_all2. exact Hlen.
Qed.

(** ** The write queue of a WebSocket session *)

Section WebSocketSessionFacts.
Import WebSocketSession.

Lemma inv_start : write_path_inv start.
Proof. split; [reflexivity|]. left. auto. Qed.

Lemma inv_step (e : event) (r r' : run) :
  step e r = Some r' -> write_path_inv r -> write_path_inv r'.
Proof.
  intros Hstep [Hhist Hstate]. destruct r as [[q wip] fl wr acc]. simpl in *.
  destruct e as [[|] msg|ec]; simpl in Hstep.
  - unfold send_text_task in Hstep. simpl in Hstep.
    destruct Hstate as [(-> & -> & ->)|[(m & rest & -> & -> & ->)|(-> & ->)]];
      simpl in Hstep; injection Hstep as <-; simpl; subst acc;
      (split; [simpl; repeat rewrite <- app_assoc; simpl; reflexivity|]).
    + right. left. exists msg, []. auto.
    + right. left. exists m, (rest ++ [msg]). auto.
    + right. right. auto.
  - injection Hstep as <-. simpl. rewrite app_nil_r. split; [exact Hhist | exact Hstate].
  - destruct Hstate as [(-> & -> & ->)|[(m & rest & -> & -> & ->)|(-> & ->)]];
      simpl in Hstep; try discriminate.
    destruct ec; simpl in Hstep.
    + injection Hstep as <-. simpl. split; [exact Hhist|]. right. right. auto.
    + destruct rest as [|x rest]; injection Hstep as <-; simpl; subst acc;
        (split; [simpl; repeat rewrite <- app_assoc; simpl; reflexivity|]).
      * left. auto.
      * right. left. exists x, rest. auto.
Qed.

Lemma inv_exec (evs : list event) (r r' : run) :
  exec evs r = Some r' -> write_path_inv r -> write_path_inv r'.
Proof.
  revert r. induction evs as [|e evs IH]; intros r; simpl.
  - intros [= <-]. trivial.
  - destruct (step e r) as [r1|] eqn:Hstep; [|discriminate].
    intros Hexec Hinv. apply (IH r1 Hexec), (inv_step e r r1 Hstep Hinv).
Qed.

(** X10. On a WebSocket session, whatever the order of [send_text] tasks
    and write completions: at most one [async_write] is outstanding, and
    it is for the message at the front of the queue; with no write under
    way and no error so far the queue is empty; the messages written,
    followed by the queue, are the messages accepted, in the order they
    were sent, so no message is written twice or out of order. *)
Theorem single_write_in_flight (evs : list event) (r : run) :
  exec evs start = Some r ->
  (length (in_flight r) <= 1)%nat /\
  (forall m, In m (in_flight r) ->
             hd_error (outgoing_messages_ (session r)) = Some m /\
             write_in_progress_ (session r) = true) /\
  (write_in_progress_ (session r) = false ->
   in_flight r = [] /\ outgoing_messages_ (session r) = []) /\
  written r ++ outgoing_messages_ (session r) = accepted r.
Proof.
  intros Hexec.
  destruct (inv_exec evs start r Hexec inv_start) as [Hhist Hstate].
  destruct Hstate as [(Hf & Hw & Hq)|[(m & rest & Hf & Hw & Hq)|(Hf & Hw)]];
    rewrite Hf; simpl.
  - split; [lia|]. split; [intros m []|]. split; [auto|exact Hhist].
  - split; [lia|]. split.
    + intros m' [<-|[]]. rewrite Hq. auto.
    + split; [congruence | exact Hhist].
  - split; [lia|]. split; [intros m []|]. split; [congruence | exact Hhist].
Qed.

Lemma dead_step (e : event) (r r' : run) :
  step e r = Some r' ->
  in_flight r = [] -> write_in_progress_ (session r) = true ->
  in_flight r' = [] /\ write_in_progress_ (session r') = true /\
  written r' = written r /\
  (exists msg is_open, e = SendText is_open msg) /\
  exists more, outgoing_messages_ (session r')
               = outgoing_messages_ (session r) ++ more.
Proof.
  destruct r as [[q wip] fl wr acc]. simpl. intros Hstep -> ->.
  destruct e as [[|] msg|ec]; simpl in Hstep; [| |discriminate];
    injection Hstep as <-; simpl.
  - repeat split; eauto.
  - repeat split; eauto. exists []. rewrite app_nil_r. reflexivity.
Qed.

Lemma dead_exec (evs : list event) (r r' : run) :
  exec evs r = Some r' ->
  in_flight r = [] -> write_in_progress_ (session r) = true ->
  in_flight r' = [] /\ write_in_progress_ (session r') = true /\
  written r' = written r /\
  Forall (fun e => exists msg is_open, e = SendText is_open msg) evs /\
  exists more, outgoing_messages_ (session r')
               = outgoing_messages_ (session r) ++ more.
Proof.
  revert r. induction evs as [|e evs IH]; intros r; simpl.
  - intros [= <-] Hf Hw. repeat split; auto. exists []. rewrite app_nil_r. reflexivity.
  - destruct (step e r) as [r1|] eqn:Hstep; [|discriminate].
    intros Hexec Hf Hw.
    destruct (dead_step e r r1 Hstep Hf Hw) as (Hf1 & Hw1 & Hwr1 & He & more1 & Hq1).
    destruct (IH r1 Hexec Hf1 Hw1) as (Hf' & Hw' & Hwr' & Hall & more & Hq).
    split; [exact Hf'|]. split; [exact Hw'|]. split; [congruence|].
    split; [constructor; assumption|].
    exists (more1 ++ more). rewrite Hq, Hq1, app_assoc. reflexivity.
Qed.

(** X11. After a write completes with an error the session never writes
    again: [on_write] returns with the in-progress flag still set, so
    every later [send_text] only queues its message.  No further write is
    started or completed, and the queue, whose front is still the message
    that failed, only grows. *)
Theorem no_write_after_error (evs evs' : list event) (r r1 r2 : run) :
  exec evs start = Some r ->
  step (WriteCompleted true) r = Some r1 ->
  exec evs' r1 = Some r2 ->
  written r2 = written r /\
  in_flight r2 = [] /\
  write_in_progress_ (session r2) = true /\
  Forall (fun e => exists msg is_open, e = SendText is_open msg) evs' /\
  exists failed more,
    in_flight r = [failed] /\
    outgoing_messages_ (session r2)
      = failed :: tl (outgoing_messages_ (session r)) ++ more.
Proof.
  intros Hexec Hstep Hexec'.
  destruct (inv_exec evs start r Hexec inv_start) as [_ Hstate].
  destruct r as [[q wip] fl wr acc]. simpl in *.
  destruct Hstate as [(-> & -> & ->)|[(m & rest & -> & -> & ->)|(-> & ->)]];
    simpl in Hstep; try discriminate.
  injection Hstep as <-.
  destruct (dead_exec evs' _ r2 Hexec' eq_refl eq_refl)
    as (Hf & Hw & Hwr & Hall & more & Hq).
  simpl in *. split; [exact Hwr|]. split; [exact Hf|]. split; [exact Hw|].
  split; [exact Hall|]. exists m, more. split; [reflexivity | exact Hq].
Qed.

End WebSocketSessionFacts.

(** ** Sliding windows: [CircularBuffer] and the page's lists *)

Lemma tl_skipn {A : Type} (k : nat) (l : list A) : tl (skipn k l) = skipn (S k) l.
Proof.
  revert k. induction l as [|x l IH]; intros [|k]; try reflexivity.
  apply (IH k).
Qed.

Lemma window_snoc {A : Type} (n : nat) (l : list A) (x : A) :
  (0 < n)%nat ->
  skipn (length (l ++ [x]) - n) (l ++ [x])
    = (if Nat.leb n (length l) then tl (skipn (length l - n) l)
       else skipn (length l - n) l) ++ [x].
Proof.
  intros Hn. rewrite length_app. simpl length.
  destruct (Nat.leb_spec n (length l)) as [Hle|Hlt].
  - rewrite tl_skipn, List.skipn_app.
    replace (length l + 1 - n)%nat with (S (length l - n)) by lia.
    replace (S (length l - n) - length l)%nat with O by lia. reflexivity.
  - replace (length l + 1 - n)%nat with O by lia.
    replace (length l - n)%nat with O by lia. reflexivity.
Qed.

Section CircularBufferFacts.
Context {T : Type}.
Import CircularBuffer.

Lemma push_all_snoc (items : list T) (x : T) (cb : t T) :
  push_all (items ++ [x]) cb = push x (push_all items cb).
Proof. unfold push_all. rewrite fold_left_app. reflexivity. Qed.

Lemma push_all_window (n : nat) (items : list T) :
  (0 < n)%nat ->
  buffer_ (push_all items (make n)) = skipn (length items - n) items /\
  max_size_ (push_all items (make n)) = n.
Proof.
  intros Hn. induction items as [|x items [IHb IHm]] using rev_ind.
  - split; reflexivity.
  - rewrite push_all_snoc. unfold push. simpl. rewrite IHm, IHb. split; [|reflexivity].
    rewrite window_snoc by exact Hn. rewrite length_skipn.
    destruct (Nat.leb_spec n (length items)) as [Hle|Hlt].
    + replace (Nat.leb n (length items - (length items - n))) with true; [reflexivity|].
      symmetry. apply Nat.leb_le. lia.
    + replace (Nat.leb n (length items - (length items - n))) with false; [reflexivity|].
      symmetry. apply Nat.leb_gt. lia.
Qed.

(** X12. A [CircularBuffer] made with a positive [max_size_] and pushed
    the items of a list, one after the other, holds the last [max_size_]
    of them, oldest first ([get_all]); [size()] is the smaller of the
    number of pushes and [max_size_]; it is [full()] exactly from the
    [max_size_]-th push on, and [empty()] only before the first. *)
Theorem circular_buffer_keeps_last (n : nat) (items : list T) :
  (0 < n)%nat ->
  get_all (push_all items (make n)) = skipn (length items - n) items /\
  size (push_all items (make n)) = Nat.min (length items) n /\
  (full (push_all items (make n)) = true <-> (n <= length items)%nat) /\
  (empty (push_all items (make n)) = true <-> items = []).
Proof.
  intros Hn. destruct (push_all_window n items Hn) as [Hb Hm].
  unfold get_all, size, full, empty. rewrite Hb, Hm, length_skipn.
  split; [reflexivity|]. split; [lia|]. split.
  - rewrite Nat.leb_le. lia.
  - destruct (skipn (length items - n) items) as [|y ys] eqn:Hs.
    + split; [intros _|reflexivity].
      apply (f_equal (@length T)) in Hs. rewrite length_skipn in Hs. simpl in Hs.
      destruct items; [reflexivity | simpl in Hs; lia].
    + split; [discriminate|]. intros ->. destruct (n - 0)%nat; discriminate.
Qed.

End CircularBufferFacts.

Lemma add_history_window (POINTS : nat) (xs h0 : list Z) :
  (0 < POINTS)%nat -> (length h0 <= POINTS)%nat ->
  fold_left (fun h x => add_history POINTS x h) xs h0
    = skipn (length (h0 ++ xs) - POINTS) (h0 ++ xs).
Proof.
  intros Hp H0. induction xs as [|x xs IH] using rev_ind.
  - simpl. rewrite app_nil_r. replace (length h0 - POINTS)%nat with O by lia.
    reflexivity.
  - rewrite fold_left_app. simpl. rewrite IH. unfold add_history, slice_last.
    destruct POINTS as [|p]; [lia|].
    rewrite app_assoc.
    rewrite (window_snoc (S p) (h0 ++ xs) x) by lia.
    rewrite (window_snoc (S p) (skipn (length (h0 ++ xs) - S p) (h0 ++ xs)) x) by lia.
    f_equal. rewrite length_skipn.
    destruct (Nat.leb_spec (S p) (length (h0 ++ xs))) as [Hle|Hlt].
    + replace (Nat.leb (S p) (length (h0 ++ xs) - (length (h0 ++ xs) - S p))) with true
        by (symmetry; apply Nat.leb_le; lia).
      replace (length (h0 ++ xs) - (length (h0 ++ xs) - S p) - S p)%nat with O by lia.
      reflexivity.
    + replace (Nat.leb (S p) (length (h0 ++ xs) - (length (h0 ++ xs) - S p))) with false
        by (symmetry; apply Nat.leb_gt; lia).
      replace (length (h0 ++ xs) - (length (h0 ++ xs) - S p) - S p)%nat with O by lia.
      replace (length (h0 ++ xs) - S p)%nat with O by lia. reflexivity.
Qed.

(** X13. The buffer-size history of the page, updated once per stats
    poll, is the last [HISTORY_POINTS] values polled (oldest first) and
    never holds more than [HISTORY_POINTS] values. *)
Theorem history_keeps_last_points (POINTS : nat) (xs : list Z) :
  (0 < POINTS)%nat ->
  fold_left (fun h x => add_history POINTS x h) xs []
    = skipn (length xs - POINTS) xs /\
  (length (fold_left (fun h x => add_history POINTS x h) xs []) <= POINTS)%nat.
Proof.
  intros Hp. rewrite (add_history_window POINTS xs []) by (simpl; lia).
  simpl. split; [reflexivity|]. rewrite length_skipn. lia.
Qed.

Section AppListsFacts.
Context {Msg : Type}.
Variable symbol_of : Msg -> string.

Lemma findIndex_Some (p : Msg -> bool) (arr : list Msg) (i : nat) :
  findIndex p arr = Some i ->
  (exists m, nth_error arr i = Some m /\ p m = true) /\
  Forall (fun m => p m = false) (firstn i arr).
Proof.
  revert i. induction arr as [|m arr IH]; intros i; simpl; [discriminate|].
  destruct (p m) eqn:Hp.
  - intros [= <-]. simpl. split; [exists m; auto | constructor].
  - destruct (findIndex p arr) as [j|]; [|discriminate].
    intros [= <-]. destruct (IH j eq_refl) as [Hm Hall].
    simpl. split; [exact Hm|]. constructor; assumption.
Qed.

Lemma findIndex_None (p : Msg -> bool) (arr : list Msg) :
  findIndex p arr = None -> Forall (fun m => p m = false) arr.
Proof.
  induction arr as [|m arr IH]; simpl; [constructor|].
  destruct (p m) eqn:Hp; [discriminate|].
  destruct (findIndex p arr); [discriminate|]. intros _. constructor; auto.
Qed.

Lemma same_symbol (m data : Msg) :
  negb (String.eqb (symbol_of m) (symbol_of data)) = false ->
  symbol_of m = symbol_of data.
Proof. intros H. apply negb_false_iff in H. apply String.eqb_eq. exact H. Qed.

Lemma other_symbol (m data : Msg) :
  negb (String.eqb (symbol_of m) (symbol_of data)) = true ->
  symbol_of m <> symbol_of data.
Proof. intros H. apply negb_true_iff in H. apply String.eqb_neq. exact H. Qed.

(** The place where [data] goes: behind the leading messages of its own
    symbol, and at index [MAX - 1] when that would be past the end of the
    list kept. *)
Lemma add_message_insert (MAX : nat) (data : Msg) (prev : list Msg) :
  (1 <= MAX)%nat -> (length prev <= MAX)%nat ->
  exists i : nat,
    (i < MAX)%nat /\ (i <= length prev)%nat /\
    add_message symbol_of MAX data prev
      = firstn MAX (firstn i prev ++ data :: skipn i prev) /\
    Forall (fun m => symbol_of m = symbol_of data) (firstn i prev) /\
    ((exists m, nth_error prev i = Some m /\ symbol_of m <> symbol_of data) \/
     (Forall (fun m => symbol_of m = symbol_of data) prev /\
      i = Nat.min (length prev) (MAX - 1))).
Proof.
  intros HM Hlen. unfold add_message. destruct prev as [|top rest].
  - exists O. simpl. split; [lia|]. split; [lia|]. split; [reflexivity|].
    split; [constructor|]. right. split; [constructor | reflexivity].
  - destruct (negb (String.eqb (symbol_of top) (symbol_of data))) eqn:Htop.
    + exists O. simpl. split; [lia|]. split; [lia|]. split; [reflexivity|].
      split; [constructor|]. left. exists top. split; [reflexivity|].
      apply other_symbol. exact Htop.
    + destruct (findIndex _ (top :: rest)) as [i|] eqn:Hfind.
      * destruct (findIndex_Some _ _ _ Hfind) as [(m & Hm & Hpm) Hall].
        assert (Hi : (i < length (top :: rest))%nat)
          by (apply nth_error_Some; rewrite Hm; discriminate).
        exists i. split; [lia|]. split; [lia|]. split; [reflexivity|]. split.
        -- eapply List.Forall_impl; [|exact Hall]. intros m'. apply same_symbol.
        -- left. exists m. split; [exact Hm|]. apply other_symbol. exact Hpm.
      * pose proof (findIndex_None _ _ Hfind) as Hall.
        assert (Hsame : Forall (fun m => symbol_of m = symbol_of data) (top :: rest)).
        { eapply List.Forall_impl; [|exact Hall]. intros m. apply same_symbol. }
        exists (Nat.min (length (top :: rest)) (MAX - 1)).
        split; [lia|]. split; [lia|]. split; [|split].
        -- destruct MAX as [|M]; [lia|]. unfold slice_0_pred.
           replace (S M - 1)%nat with M by lia.
           destruct (Nat.le_gt_cases (length (top :: rest)) M) as [Hfit|Hover].
           ++ rewrite Nat.min_l by lia.
              rewrite (firstn_all2 (n := M)) by lia.
              rewrite firstn_all, skipn_all. rewrite firstn_all2; [reflexivity|].
              rewrite length_app. simpl in *. lia.
           ++ rewrite Nat.min_r by lia.
              rewrite firstn_app, length_firstn.
              replace (Nat.min M (length (top :: rest))) with M by lia.
              rewrite (firstn_all2 (n := S M) (firstn M (top :: rest)))
                by (rewrite length_firstn; lia).
              replace (S M - M)%nat with 1%nat by lia. reflexivity.
        -- apply Forall_take. exact Hsame.
        -- right. split; [exact Hsame | reflexivity].
Qed.

(** X14. The message list of the page, when it holds at most
    [MAX_MESSAGES] (at least 1) messages.  A new message is always kept
    and the list grows by one up to [MAX_MESSAGES].  The new message goes
    to index [i], the messages before and after it keeping their order,
    and the result is cut to [MAX_MESSAGES]; [i] is the index of the first
    message whose symbol differs from the new one's (0 when the first
    message differs: the new message goes on top), and when every message
    has the new message's symbol, [i] is the end of the list, or
    [MAX_MESSAGES - 1] when the list is full (the last message is then
    replaced).  With room for two, a list whose first message has the new
    message's symbol keeps that first message on top. *)
Theorem add_message_keeps_data (MAX : nat) (data : Msg) (prev : list Msg) :
  (1 <= MAX)%nat -> (length prev <= MAX)%nat ->
  In data (add_message symbol_of MAX data prev) /\
  length (add_message symbol_of MAX data prev) = Nat.min (S (length prev)) MAX /\
  (exists i : nat,
     (i <= length prev)%nat /\
     add_message symbol_of MAX data prev
       = firstn MAX (firstn i prev ++ data :: skipn i prev) /\
     Forall (fun m => symbol_of m = symbol_of data) (firstn i prev) /\
     ((exists m, nth_error prev i = Some m /\ symbol_of m <> symbol_of data) \/
      (Forall (fun m => symbol_of m = symbol_of data) prev /\
       i = Nat.min (length prev) (MAX - 1))) /\
     nth_error (add_message symbol_of MAX data prev) i = Some data) /\
  (forall top rest,
     prev = top :: rest -> symbol_of top = symbol_of data -> (2 <= MAX)%nat ->
     hd_error (add_message symbol_of MAX data prev) = Some top).
Proof.
  intros HM Hlen.
  destruct (add_message_insert MAX data prev HM Hlen)
    as (i & Hi & Hip & Heq & Hall & Hwhere).
  assert (Hli : length (firstn i prev) = i) by (rewrite length_firstn; lia).
  assert (Hnth : nth_error (add_message symbol_of MAX data prev) i = Some data).
  { rewrite Heq, nth_error_firstn.
    replace (Nat.ltb i MAX) with true by (symmetry; apply Nat.ltb_lt; exact Hi).
    rewrite nth_error_app2 by lia. rewrite Hli, Nat.sub_diag. reflexivity. }
  split; [|split; [|split]].
  - apply nth_error_In with (n := i). exact Hnth.
  - rewrite Heq, length_firstn, length_app. cbn [length]. rewrite Hli, length_skipn. lia.
  - exists i. auto 6.
  - intros top rest Hprev Hsame H2.
    assert (H1 : (1 <= i)%nat).
    { destruct Hwhere as [(m & Hm & Hne)|[_ ->]].
      - destruct i; [|lia]. subst prev. simpl in Hm. congruence.
      - subst prev. cbn [length]. lia. }
    rewrite Heq. subst prev. destruct i as [|i]; [lia|].
    destruct MAX as [|M]; [lia|]. reflexivity.
Qed.

End AppListsFacts.

(** ** The further properties at concrete inputs *)

Lemma repr_after_publish {World : Type} (topic : string) (d : MarketData)
      (b : MessageBus.t World) (l : list MessageWrapper) :
  RingBuffer.repr MessageBus.DEFAULT_RING_BUFFER_SIZE (MessageBus.ring_buffer_ b) l ->
  Z.of_nat (length l) < MessageBus.DEFAULT_RING_BUFFER_SIZE - 1 ->
  RingBuffer.repr MessageBus.DEFAULT_RING_BUFFER_SIZE
    (MessageBus.ring_buffer_ (fst (fst (MessageBus.publish topic d b))))
    (l ++ [MessageBus.make_wrapper d (wrap_u64 (MessageBus.sequence_ b + 1))]).
Proof.
  intros Hrepr Hroom.
  destruct (publish_room_eq topic d b l Hrepr Hroom) as (rb & Hrb & ->). exact Hrb.
Qed.

Lemma two_tick_bus_repr :
  RingBuffer.repr MessageBus.DEFAULT_RING_BUFFER_SIZE
    (MessageBus.ring_buffer_ two_tick_bus)
    [MessageBus.make_wrapper (sample_tick 0) 1; MessageBus.make_wrapper (sample_tick 1) 2].
Proof.
  pose proof (repr_after_publish "market_data" (sample_tick 0)
                (MessageBus.subscribe "market_data" counting MessageBus.create) []
                (repr_init _ SIZE_pos) eq_refl) as H1.
  exact (repr_after_publish "market_data" (sample_tick 1) _ _ H1 eq_refl).
Qed.

Lemma counting_std : MessageBus.throws_only_std counting.
Proof. intros d w. discriminate. Qed.

Lemma process_messages_drains_witness :
  exists b' evs,
    MessageBus.process_messages 3 two_tick_bus 0%nat = (Some (b', 2%nat), evs) /\
    MessageBus.processed_count_ b' = 2 /\
    map fst (invoked evs) = [0%nat; 0%nat].
Proof.
  destruct (process_messages_drains 3 two_tick_bus 0%nat _ two_tick_bus_repr)
    as (b' & evs & Hrun & _ & Hp & Hinv & _).
  - repeat constructor. exact counting_std.
  - vm_compute. split; [discriminate | reflexivity].
  - simpl. lia.
  - exists b', evs. split; [exact Hrun|]. split; [exact Hp|].
    rewrite Hinv. reflexivity.
Defined.

Lemma subscribe_appends_witness :
  exists b' evs,
    MessageBus.process_one (MessageBus.subscribe "market_data" counting two_tick_bus)
      0%nat = MessageBus.Completed b' 2%nat evs /\
    map fst (invoked evs) = [0%nat; 1%nat].
Proof.
  destruct (subscribe_appends counting two_tick_bus 0%nat _ _ two_tick_bus_repr)
    as (_ & b' & evs & Hone & Hinv).
  - repeat constructor. exact counting_std.
  - exact counting_std.
  - exists b', evs. split; [exact Hone|]. rewrite Hinv. reflexivity.
Defined.


Lemma delay_is_last_request_clamped_witness :
  exists s,
    MessageBus.exec [MessageBus.OpSetDelay 250;
                     MessageBus.OpPublish "market_data" (sample_tick 0);
                     MessageBus.OpSetDelay (-5)] (MessageBus.start 0%nat) = Some s /\
    MessageBus.get_processing_delay_ms (MessageBus.bus s) = 0.
Proof.
  eexists. split; [vm_compute; reflexivity|].
  apply (delay_is_last_request_clamped 0%nat
           [MessageBus.OpSetDelay 250;
            MessageBus.OpPublish "market_data" (sample_tick 0);
            MessageBus.OpSetDelay (-5)]).
  vm_compute. reflexivity.
Defined.

(** 1030 ticks asked of a new bus: 1023 fit, 7 are dropped. *)
Lemma bulk_publish_fills_then_drops_witness :
  exists b',
    handle_publish_bulk_loop 1030 (String.list_byte_of_string "LOAD") sample_gen
      (@MessageBus.create nat) = (b', 1023, 7).
Proof.
  destruct (bulk_publish_fills_then_drops 1030 (String.list_byte_of_string "LOAD")
              sample_gen (@MessageBus.create nat) [] (repr_init _ SIZE_pos))
    as (b' & Hrun & _).
  exists b'. exact Hrun.
Defined.

Lemma http_symbol_truncated_witness :
  c_str (symbol (data (MessageBus.make_wrapper
                         (http_tick (String.list_byte_of_string "AAPL") 1 1 0 0) 1)))
    = String.list_byte_of_string "AAPL".
Proof.
  apply (http_symbol_truncated (String.list_byte_of_string "AAPL") 1 1 0 0 1).
  - simpl. lia.
  - repeat constructor; discriminate.
Defined.

Lemma single_write_in_flight_witness :
  exists r,
    WebSocketSession.exec
      [WebSocketSession.SendText true "a"; WebSocketSession.SendText true "b";
       WebSocketSession.WriteCompleted false] WebSocketSession.start = Some r /\
    (length (WebSocketSession.in_flight r) <= 1)%nat /\
    WebSocketSession.written r
      ++ WebSocketSession.outgoing_messages_ (WebSocketSession.session r)
    = WebSocketSession.accepted r.
Proof.
  eexists. split; [reflexivity|].
  destruct (single_write_in_flight
              [WebSocketSession.SendText true "a"; WebSocketSession.SendText true "b";
               WebSocketSession.WriteCompleted false] _ eq_refl) as (H1 & _ & _ & H4).
  split; [exact H1 | exact H4].
Defined.

Lemma no_write_after_error_witness :
  exists r2,
    WebSocketSession.exec
      [WebSocketSession.SendText true "a"; WebSocketSession.WriteCompleted true;
       WebSocketSession.SendText true "b"] WebSocketSession.start = Some r2 /\
    WebSocketSession.written r2 = [] /\
    WebSocketSession.in_flight r2 = [].
Proof.
  eexists. split; [reflexivity|].
  destruct (no_write_after_error [WebSocketSession.SendText true "a"]
              [WebSocketSession.SendText true "b"] _ _ _ eq_refl eq_refl eq_refl)
    as (H1 & H2 & _).
  split; [exact H1 | exact H2].
Defined.

Lemma circular_buffer_keeps_last_witness :
  CircularBuffer.get_all
    (CircularBuffer.push_all [1; 2; 3; 4; 5] (CircularBuffer.make 3)) = [3; 4; 5].
Proof.
  apply (circular_buffer_keeps_last 3 [1; 2; 3; 4; 5]). lia.
Defined.

Lemma history_keeps_last_points_witness :
  fold_left (fun h x => add_history 2 x h) [1; 2; 3] [] = [2; 3].
Proof.
  apply (history_keeps_last_points 2 [1; 2; 3]). lia.
Defined.

Lemma add_message_keeps_data_witness :
  In ("A"%string, 3)
     (add_message (fst : page_message -> string) 3 ("A"%string, 3)
        [("A"%string, 1); ("B"%string, 2)]) /\
  hd_error (add_message (fst : page_message -> string) 3 ("A"%string, 3)
              [("A"%string, 1); ("B"%string, 2)]) = Some ("A"%string, 1).
Proof.
  destruct (add_message_keeps_data (fst : page_message -> string) 3 ("A"%string, 3)
              [("A"%string, 1); ("B"%string, 2)]) as (Hin & _ & _ & Htop);
    [lia | simpl; lia |].
  split; [exact Hin|]. apply (Htop _ _ eq_refl eq_refl). lia.
Defined.

(** ** The historical replay *)

Section ReplayFacts.
Context {World Msg : Type}.
Variable timestamp_of : Msg -> Z.
Variable scaled_delay : Z -> double -> Z.
Variable callback_ : Msg -> World -> World.
Import ReplayEngine.

Abbreviation engine := (ReplayEngine.t (Msg := Msg)).
Abbreviation next :=
  (process_next_message timestamp_of scaled_delay callback_).
Abbreviation thread := (replay_thread timestamp_of scaled_delay callback_).

(** What the thread does for a message and the one before it: the sleep,
    then the callback. *)
Abbreviation sleep_then_call speed :=
  (fun pm : Msg * Msg =>
     [EvSleepFor (scaled_delay (timestamp_of (snd pm) - timestamp_of (fst pm)) speed);
      EvCallback (snd pm)]).

Lemma nil_or_snoc {A : Type} (l : list A) :
  l = [] \/ exists l' x, l = l' ++ [x].
Proof.
  destruct l as [|a l] using rev_ind; [left; reflexivity|].
  right. exists l, a. reflexivity.
Qed.

(** The sleep [process_next_message] makes at index [length done]. *)
Lemma next_at (done todo : list Msg) (m : Msg) (speed : double) (run joinable : bool)
      (w : World) :
  next {| historical_data_ := done ++ m :: todo; running_ := run;
          speed_multiplier_ := speed; current_index_ := length done;
          replay_thread_ := joinable |} w
  = ({| historical_data_ := done ++ m :: todo; running_ := run;
        speed_multiplier_ := speed; current_index_ := S (length done);
        replay_thread_ := joinable |},
     callback_ m w,
     match last done with
     | Some previous =>
         [EvSleepFor (scaled_delay (timestamp_of m - timestamp_of previous) speed)]
     | None => []
     end ++ [EvCallback m]).
Proof.
  unfold process_next_message.
  cbn [historical_data_ current_index_ speed_multiplier_ running_ replay_thread_].
  rewrite nth_error_app2, Nat.sub_diag by lia. cbn [nth_error].
  destruct (nil_or_snoc done) as [->|(done' & p & ->)]; [reflexivity|].
  rewrite last_snoc, length_app. cbn [length].
  replace (length done' + 1)%nat with (S (length done')) by lia.
  rewrite <- app_assoc. cbn [app].
  rewrite nth_error_app2, Nat.sub_diag by lia. reflexivity.
Qed.

(** The thread on an engine that is running at index [length done], with
    [todo] left. *)
Lemma replay_thread_from (todo : list Msg) :
  forall (done : list Msg) (speed : double) (joinable : bool) (w : World) (fuel : nat),
    (length todo <= fuel)%nat ->
    thread fuel {| historical_data_ := done ++ todo; running_ := true;
                   speed_multiplier_ := speed;
                   current_index_ := length done;
                   replay_thread_ := joinable |} w
      = Some ({| historical_data_ := done ++ todo; running_ := false;
                 speed_multiplier_ := speed;
                 current_index_ := length (done ++ todo);
                 replay_thread_ := joinable |},
              fold_left (fun w' m => callback_ m w') todo w,
              match last done with
              | Some previous =>
                  flat_map (sleep_then_call speed) (combine (previous :: todo) todo)
              | None =>
                  firstn 1 (map EvCallback todo)
                    ++ flat_map (sleep_then_call speed) (combine todo (tl todo))
              end).
Proof.
  induction todo as [|m todo IH]; intros done speed joinable w fuel Hfuel.
  - rewrite app_nil_r.
    destruct fuel; cbn [replay_thread historical_data_ running_ current_index_ andb];
      rewrite Nat.ltb_irrefl; destruct (last done); reflexivity.
  - destruct fuel as [|fuel]; [simpl in Hfuel; lia|].
    cbn [replay_thread]. cbn [historical_data_ running_ current_index_ andb].
    replace (Nat.ltb (length done) (length (done ++ m :: todo))) with true
      by (symmetry; apply Nat.ltb_lt; rewrite length_app; simpl; lia).
    rewrite next_at.
    pose proof (IH (done ++ [m]) speed joinable (callback_ m w) fuel) as Hrun.
    rewrite <- !app_assoc in Hrun. cbn [app] in Hrun.
    rewrite length_app in Hrun. cbn [length] in Hrun.
    replace (length done + 1)%nat with (S (length done)) in Hrun by lia.
    rewrite Hrun by (simpl in Hfuel; lia).
    rewrite last_snoc.
    destruct (last done) as [previous|]; reflexivity.
Qed.

(** X15. [start_replay] starts nothing on an engine that is already
    running or has no data loaded, and ends the process on an engine that
    is not running but whose thread object is still joinable.  Otherwise
    the replay thread, left to run, hands every loaded message to the
    callback exactly once, in file order: the first message at once, every
    later one after a sleep for the scaled gap to its predecessor; it ends
    with [running_] cleared and [current_index_] at the end of the data.
    The thread object stays joinable: a second [start_replay] then ends the
    process, unless [stop_replay] is called in between. *)
Theorem replay_delivers_in_order (speed again : double) (e : engine) (w : World) :
  (running_ e = true -> start_replay speed e = NotStarted e []) /\
  (running_ e = false -> historical_data_ e = [] ->
   start_replay speed e = NotStarted e ["No historical data loaded"%string]) /\
  (running_ e = false -> historical_data_ e <> [] -> replay_thread_ e = true ->
   start_replay speed e = Terminated) /\
  (running_ e = false -> historical_data_ e <> [] -> replay_thread_ e = false ->
   let data := historical_data_ e in
   let ended :=
     {| historical_data_ := data; running_ := false; speed_multiplier_ := speed;
        current_index_ := length data; replay_thread_ := true |} in
   exists e1,
     start_replay speed e = Started e1 /\
     thread (length data) e1 w
       = Some (ended,
               fold_left (fun w' m => callback_ m w') data w,
               firstn 1 (map EvCallback data)
                 ++ flat_map (sleep_then_call speed) (combine data (tl data))) /\
     start_replay again ended = Terminated /\
     start_replay again (stop_replay ended)
       = Started {| historical_data_ := data; running_ := true;
                    speed_multiplier_ := again; current_index_ := 0;
                    replay_thread_ := true |}).
Proof.
  unfold start_replay. split; [intros ->; reflexivity|]. split; [|split].
  - intros -> ->. reflexivity.
  - intros -> Hne ->. destruct (historical_data_ e); [congruence | reflexivity].
  - intros -> Hne ->. cbn zeta.
    destruct (historical_data_ e) as [|m data] eqn:Hdata; [congruence|].
    eexists. split; [reflexivity|]. split; [|split; reflexivity].
    apply (replay_thread_from (m :: data) [] speed true w (length (m :: data)) (le_n _)).
Qed.

End ReplayFacts.

Lemma replay_delivers_in_order_witness :
  exists e1,
    ReplayEngine.start_replay 1
      {| ReplayEngine.historical_data_ := [10; 12; 15];
         ReplayEngine.running_ := false;
         ReplayEngine.speed_multiplier_ := 1;
         ReplayEngine.current_index_ := 0;
         ReplayEngine.replay_thread_ := false |} = ReplayEngine.Started e1 /\
    ReplayEngine.replay_thread (fun m : Z => m) (fun diff _ => diff)
      (fun m w => w ++ [m]) 3 e1 []
      = Some ({| ReplayEngine.historical_data_ := [10; 12; 15];
                 ReplayEngine.running_ := false;
                 ReplayEngine.speed_multiplier_ := 1;
                 ReplayEngine.current_index_ := 3;
                 ReplayEngine.replay_thread_ := true |},
              [10; 12; 15],
              [ReplayEngine.EvCallback 10;
               ReplayEngine.EvSleepFor 2; ReplayEngine.EvCallback 12;
               ReplayEngine.EvSleepFor 3; ReplayEngine.EvCallback 15]) /\
    ReplayEngine.start_replay 2
      {| ReplayEngine.historical_data_ := [10; 12; 15];
         ReplayEngine.running_ := false;
         ReplayEngine.speed_multiplier_ := 1;
         ReplayEngine.current_index_ := 3;
         ReplayEngine.replay_thread_ := true |} = ReplayEngine.Terminated.
Proof.
  destruct (replay_delivers_in_order (fun m : Z => m) (fun diff _ => diff)
              (fun m w => w ++ [m]) 1 2
              {| ReplayEngine.historical_data_ := [10; 12; 15];
                 ReplayEngine.running_ := false;
                 ReplayEngine.speed_multiplier_ := 1;
                 ReplayEngine.current_index_ := 0;
                 ReplayEngine.replay_thread_ := false |} [])
    as (_ & _ & _ & Hrun).
  destruct (Hrun eq_refl) as (e1 & Hstart & Hthread & Hagain & _);
    [discriminate | reflexivity |].
  exists e1. split; [exact Hstart|]. split; [exact Hthread | exact Hagain].
Defined.

(** ** Fan-out to the WebSocket sessions *)

Section SessionSubscribersFacts.
Variable dump : MarketData -> string + string.

Abbreviation session_cb := (session_callback dump).

Lemma session_callback_std (i : nat) : MessageBus.throws_only_std (session_cb i).
Proof.
  intros d w. unfold session_callback. destruct (dump d); discriminate.
Qed.

Lemma deliver_sessions (ids : list nat) (d : MarketData) (w : gmap nat (list string)) :
  NoDup ids ->
  forall i : nat,
    posted i (MessageBus.deliver (map session_cb ids) d w)
    = if decide (i ∈ ids)
      then posted i w ++ texts dump [d]
      else posted i w.
Proof.
  intros Hnd. revert w. induction Hnd as [|j ids Hj Hnd IH]; intros w i.
  - simpl. destruct (decide (i ∈ [])) as [Hin|_]; [|reflexivity].
    apply elem_of_nil in Hin. contradiction.
  - unfold MessageBus.deliver in *. simpl fold_left. rewrite IH.
    unfold texts, session_callback. simpl.
    destruct (decide (i ∈ ids)) as [Hin|Hnin].
    + rewrite decide_True by (apply elem_of_cons; auto).
      assert (i <> j) by (intros ->; contradiction).
      destruct (dump d); simpl; [|reflexivity].
      unfold posted. rewrite lookup_insert_ne by congruence. reflexivity.
    + destruct (decide (i = j)) as [->|Hne].
      * rewrite decide_True by (apply elem_of_cons; auto).
        destruct (dump d); simpl; [|rewrite app_nil_r; reflexivity].
        unfold posted. rewrite lookup_insert_eq. reflexivity.
      * rewrite decide_False by (rewrite elem_of_cons; tauto).
        destruct (dump d); simpl; [|reflexivity].
        unfold posted. rewrite lookup_insert_ne by congruence. reflexivity.
Qed.

Lemma deliver_all_sessions (ids : list nat) (ds : list MarketData)
      (w : gmap nat (list string)) :
  NoDup ids ->
  forall i : nat,
    posted i (deliver_all (map session_cb ids) ds w)
    = if decide (i ∈ ids)
      then posted i w ++ texts dump ds
      else posted i w.
Proof.
  intros Hnd. revert w. induction ds as [|d ds IH]; intros w i.
  - simpl. destruct (decide (i ∈ ids)); [rewrite app_nil_r|]; reflexivity.
  - unfold deliver_all in *. simpl fold_left. rewrite IH.
    rewrite (deliver_sessions ids d w Hnd i).
    destruct (decide (i ∈ ids)); [|reflexivity].
    unfold texts. simpl. rewrite app_nil_r, <- app_assoc. reflexivity.
Qed.

(** X16. When the "market_data" subscribers are the closures of the
    sessions [ids], a drain of the ring posts to every one of these
    sessions the same texts in the same order: one per tick, in ring
    order, skipping the ticks whose JSON text cannot be produced (that
    fault is caught by the bus).  A session that is not subscribed is
    posted nothing. *)
Theorem sessions_get_same_order
        (ids : list nat) (n : nat) (b : MessageBus.t (gmap nat (list string)))
        (w : gmap nat (list string)) (l : list MessageWrapper) :
  RingBuffer.repr MessageBus.DEFAULT_RING_BUFFER_SIZE (MessageBus.ring_buffer_ b) l ->
  MessageBus.subscribers_ b !! "market_data" = Some (map session_cb ids) ->
  NoDup ids ->
  0 <= MessageBus.processed_count_ b < 2 ^ 64 ->
  (length l <= n)%nat ->
  exists b' w' evs,
    MessageBus.process_messages n b w = (Some (b', w'), evs) /\
    (forall i : nat,
       i ∈ ids -> posted i w' = posted i w ++ texts dump (map MessageBus.unwrap l)) /\
    (forall i : nat, i ∉ ids -> posted i w' = posted i w) /\
    (forall i j : nat,
       i ∈ ids -> j ∈ ids -> posted i w = [] -> posted j w = [] ->
       posted i w' = posted j w').
Proof.
  intros Hrepr Hsub Hnd Hrange Hlen.
  destruct (process_messages_drain n b w l Hrepr) as (b' & evs & Hrun & _);
    [|exact Hrange|exact Hlen|].
  { rewrite Hsub. simpl. apply Forall_forall. intros cb Hin.
    apply list_elem_of_fmap in Hin. destruct Hin as (i & -> & _).
    apply session_callback_std. }
  rewrite Hsub in Hrun. simpl default in Hrun.
  exists b', (deliver_all (map session_cb ids) (map MessageBus.unwrap l) w), evs.
  split; [exact Hrun|].
  pose proof (deliver_all_sessions ids (map MessageBus.unwrap l) w Hnd) as Hposted.
  split; [|split].
  - intros i Hi. rewrite Hposted, decide_True by exact Hi. reflexivity.
  - intros i Hi. rewrite Hposted, decide_False by exact Hi. reflexivity.
  - intros i j Hi Hj Hwi Hwj.
    rewrite !Hposted, !decide_True by assumption. rewrite Hwi, Hwj. reflexivity.
Qed.

End SessionSubscribersFacts.

Lemma sessions_bus_repr :
  RingBuffer.repr MessageBus.DEFAULT_RING_BUFFER_SIZE
    (MessageBus.ring_buffer_ sessions_bus)
    [MessageBus.make_wrapper (sample_tick 0) 1; MessageBus.make_wrapper (sample_tick 1) 2;
     MessageBus.make_wrapper (sample_tick 2) 3].
Proof.
  pose proof (repr_after_publish "market_data" (sample_tick 0)
                (MessageBus.subscribe "market_data" (session_callback sample_dump 1)
                   (MessageBus.subscribe "market_data" (session_callback sample_dump 0)
                      MessageBus.create)) []
                (repr_init _ SIZE_pos) eq_refl) as H1.
  pose proof (repr_after_publish "market_data" (sample_tick 1) _ _ H1 eq_refl) as H2.
  exact (repr_after_publish "market_data" (sample_tick 2) _ _ H2 eq_refl).
Qed.

(** Three ticks, the second of which has no JSON text: both sessions are
    posted the first and the third. *)
Lemma sessions_get_same_order_witness :
  exists b' w' evs,
    MessageBus.process_messages 3 sessions_bus ∅ = (Some (b', w'), evs) /\
    posted 0 w' = ["tick"%string; "tick"%string] /\
    posted 1 w' = posted 0 w'.
Proof.
  destruct (sessions_get_same_order sample_dump [0%nat; 1%nat] 3 sessions_bus ∅ _
              sessions_bus_repr)
    as (b' & w' & evs & Hrun & Hin & _ & Hsame).
  - reflexivity.
  - apply NoDup_cons. split; [intros Hin; apply list_elem_of_singleton in Hin; discriminate|].
    apply NoDup_singleton.
  - vm_compute. split; [discriminate | reflexivity].
  - simpl. lia.
  - exists b', w', evs. split; [exact Hrun|]. split.
    + rewrite (Hin 0%nat) by (apply elem_of_cons; left; reflexivity). reflexivity.
    + apply Hsame; try reflexivity.
      * apply elem_of_cons. right. apply elem_of_cons. left. reflexivity.
      * apply elem_of_cons. left. reflexivity.
Defined.
